(** * Address book: Field / Name / Phone / Record / AddressBook

    A shallow embedding of the two implementation variants of the address
    book ([privo.py] and [telia.py]).  Python objects live in a store
    indexed by references, so that aliasing (an [AddressBook] holding the
    very [Record] object the caller keeps mutating) is visible.  Methods
    are computations in a state-and-exception monad: an exception leaves
    the store as it was at the moment of the [raise]. *)

From Stdlib Require Import String Ascii.
From stdpp Require Import gmap list.

Set Default Proof Using "Type".

(** ** Python strings *)

(** A [str] is a sequence of Unicode code points. *)
Abbreviation char := N (only parsing).
Abbreviation str := (list N) (only parsing).

(** Literals of the source are written as Rocq strings. *)
Definition lit (s : string) : str := N_of_ascii <$> list_ascii_of_string s.

(** Code points with Unicode property Numeric_Type=Decimal or Digit
    (Unicode 14.0), as inclusive ranges: the characters for which
    [str.isdigit] answers [True]. *)
Definition digit_ranges : list (N * N) :=
  [ (48, 57); (178, 179); (185, 185); (1632, 1641); (1776, 1785);
    (1984, 1993); (2406, 2415); (2534, 2543); (2662, 2671); (2790, 2799);
    (2918, 2927); (3046, 3055); (3174, 3183); (3302, 3311); (3430, 3439);
    (3558, 3567); (3664, 3673); (3792, 3801); (3872, 3881); (4160, 4169);
    (4240, 4249); (4969, 4977); (6112, 6121); (6160, 6169); (6470, 6479);
    (6608, 6618); (6784, 6793); (6800, 6809); (6992, 7001); (7088, 7097);
    (7232, 7241); (7248, 7257); (8304, 8304); (8308, 8313); (8320, 8329);
    (9312, 9320); (9332, 9340); (9352, 9360); (9450, 9450); (9461, 9469);
    (9471, 9471); (10102, 10110); (10112, 10120); (10122, 10130);
    (42528, 42537); (43216, 43225); (43264, 43273); (43472, 43481);
    (43504, 43513); (43600, 43609); (44016, 44025); (65296, 65305);
    (66720, 66729); (68160, 68163); (68912, 68921); (69216, 69224);
    (69714, 69722); (69734, 69743); (69872, 69881); (69942, 69951);
    (70096, 70105); (70384, 70393); (70736, 70745); (70864, 70873);
    (71248, 71257); (71360, 71369); (71472, 71481); (71904, 71913);
    (72016, 72025); (72784, 72793); (73040, 73049); (73120, 73129);
    (92768, 92777); (92864, 92873); (93008, 93017); (120782, 120831);
    (123200, 123209); (123632, 123641); (125264, 125273);
    (127232, 127242); (130032, 130041) ]%N.

Definition char_isdigit (c : char) : bool :=
  existsb (λ r, (r.1 <=? c)%N && (c <=? r.2)%N) digit_ranges.

(** [str.isdigit()]: every character is a digit and there is at least one. *)
Definition isdigit (s : str) : bool :=
  negb (bool_decide (s = [])) && forallb char_isdigit s.

(** [sep.join(parts)] *)
Fixpoint join (sep : str) (parts : list str) : str :=
  match parts with
  | [] => []
  | [p] => p
  | p :: rest => p ++ sep ++ join sep rest
  end.

(** The rule as the specification words it: exactly 10 characters, each
    one of '0'..'9'. *)
Definition char_is_ascii_digit (c : char) : bool := (48 <=? c)%N && (c <=? 57)%N.
Definition ten_ascii_digits (s : str) : bool :=
  bool_decide (length s = 10) && forallb char_is_ascii_digit s.

(** Ten ARABIC-INDIC DIGITs, U+0660 to U+0669. *)
Definition arabic_indic : str :=
  [1632; 1633; 1634; 1635; 1636; 1637; 1638; 1639; 1640; 1641]%N.

(** Ten SUPERSCRIPT TWOs, U+00B2: digits for [isdigit], not decimal. *)
Definition superscripts : str := replicate 10 178%N.

(** ** Objects, store and the monad of methods *)

(** References to instances. *)
Abbreviation ref := nat (only parsing).

(** The three field classes; [Name] and [Phone] derive from [Field]. *)
Inductive cls := Field | Name | Phone.

Global Instance cls_eq_dec : EqDecision cls.
Proof. solve_decision. Defined.

(** Instances.  A field object has one string slot ([_value] in privo.py,
    [value] in telia.py); a record refers to its [Name] object and holds
    the list of its [Phone] objects; an address book holds its [data]
    dictionary from names to record objects. *)
Inductive obj :=
  | OField (c : cls) (value : str)
  | ORecord (name : ref) (phones : list ref)
  | OBook (data : gmap str ref).

Abbreviation store := (gmap nat obj) (only parsing).

Inductive exn :=
  | ValueError (msg : str)
  | AttributeError.

Inductive outcome (A : Type) :=
  | Ret (a : A)
  | Raise (e : exn).
Global Arguments Ret {A} a.
Global Arguments Raise {A} e.

Definition M (A : Type) : Type := store → outcome A * store.

Global Instance M_ret : MRet M := λ A a σ, (Ret a, σ).
Global Instance M_bind : MBind M := λ A B f m σ,
  match m σ with
  | (Ret a, σ') => f a σ'
  | (Raise e, σ') => (Raise e, σ')
  end.

Definition raise {A} (e : exn) : M A := λ σ, (Raise e, σ).

(** Allocation of a new instance at a reference not in use. *)
Definition alloc (o : obj) : M ref := λ σ,
  let l := fresh (dom σ) in (Ret l, <[l := o]> σ).

Definition load (l : ref) : M obj := λ σ,
  match σ !! l with
  | Some o => (Ret o, σ)
  | None => (Raise AttributeError, σ)
  end.

Definition save (l : ref) (o : obj) : M unit := λ σ, (Ret (), <[l := o]> σ).

(** The two source files. *)
Inductive variant := Privo | Telia.

Global Instance variant_eq_dec : EqDecision variant.
Proof. solve_decision. Defined.

(** ** Field, Name and Phone *)

Definition validation_msg : str :=
  lit "Phone number must contain exactly 10 digits".

(** privo.py, [Phone.validate_phone]. *)
Definition validate_phone (number : str) : M unit :=
  if negb (isdigit number) || bool_decide (length number ≠ 10)
  then raise (ValueError validation_msg)
  else mret ().

(** Reading [o.value]. *)
Definition get_value (l : ref) : M str :=
  o ← load l;
  match o with
  | OField _ s => mret s
  | _ => raise AttributeError
  end.

(** The assignment [o.value = new_value].  In privo.py [value] is a
    property and the setter of the object's class runs: [Phone]'s setter
    validates before it stores, [Field]'s (inherited by [Name]) stores.
    In telia.py [value] is a plain attribute of every class. *)
Definition set_value (v : variant) (l : ref) (new_value : str) : M unit :=
  o ← load l;
  match o with
  | OField c _ =>
      match v, c with
      | Privo, Phone =>
          validate_phone new_value;; save l (OField c new_value)
      | _, _ => save l (OField c new_value)
      end
  | _ => raise AttributeError
  end.

(** [Field.__init__], run for an instance of class [c].  An instance
    enters the store at its first attribute write: in privo.py that is
    [self._value = ""], followed by the assignment through the property;
    in telia.py it is [self.value = value]. *)
Definition Field_init (v : variant) (c : cls) (value : str) : M ref :=
  match v with
  | Privo => self ← alloc (OField c []); set_value Privo self value;; mret self
  | Telia => alloc (OField c value)
  end.

Definition Name_init (v : variant) (value : str) : M ref := Field_init v Name value.

(** [Phone(value)].  privo.py inherits [Field.__init__]; telia.py checks
    the argument and then calls [super().__init__]. *)
Definition Phone_init (v : variant) (value : str) : M ref :=
  match v with
  | Privo => Field_init Privo Phone value
  | Telia =>
      if negb (isdigit value) || bool_decide (length value ≠ 10)
      then raise (ValueError validation_msg)
      else Field_init Telia Phone value
  end.

(** [Field.__str__] *)
Definition Field_str (self : ref) : M str := get_value self.

(** ** Record *)

Definition get_name (self : ref) : M ref :=
  o ← load self;
  match o with
  | ORecord n _ => mret n
  | _ => raise AttributeError
  end.

Definition get_phones (self : ref) : M (list ref) :=
  o ← load self;
  match o with
  | ORecord _ ps => mret ps
  | _ => raise AttributeError
  end.

Definition set_phones (self : ref) (ps : list ref) : M unit :=
  o ← load self;
  match o with
  | ORecord n _ => save self (ORecord n ps)
  | _ => raise AttributeError
  end.

Definition Record_init (v : variant) (name : str) : M ref :=
  n ← Name_init v name; alloc (ORecord n []).

(** [self.phones.append(Phone(phone))]: the list is looked up, the phone
    is built, then appended. *)
Definition add_phone (v : variant) (self : ref) (phone : str) : M unit :=
  get_phones self;;
  p ← Phone_init v phone;
  ps ← get_phones self;
  set_phones self (ps ++ [p]).

(** [[p for p in ps if p.value != phone]] *)
Fixpoint phones_except (ps : list ref) (phone : str) : M (list ref) :=
  match ps with
  | [] => mret []
  | p :: rest =>
      val ← get_value p;
      kept ← phones_except rest phone;
      mret (if bool_decide (val ≠ phone) then p :: kept else kept)
  end.

Definition remove_phone (self : ref) (phone : str) : M unit :=
  ps ← get_phones self;
  kept ← phones_except ps phone;
  set_phones self kept.

Definition not_found_msg (v : variant) (old_phone : str) : str :=
  match v with
  | Privo => lit "Phone number " ++ old_phone ++ lit " not found"
  | Telia => lit "Phone number " ++ old_phone ++ lit " not found in the record"
  end.

(** The [for] loop of [edit_phone]; [true] when it returned from inside. *)
Fixpoint edit_phone_loop (v : variant) (ps : list ref) (old_phone new_phone : str)
  : M bool :=
  match ps with
  | [] => mret false
  | phone :: rest =>
      val ← get_value phone;
      if bool_decide (val = old_phone)
      then set_value v phone new_phone;; mret true
      else edit_phone_loop v rest old_phone new_phone
  end.

Definition edit_phone (v : variant) (self : ref) (old_phone new_phone : str) : M unit :=
  ps ← get_phones self;
  returned ← edit_phone_loop v ps old_phone new_phone;
  if returned : bool then mret ()
  else raise (ValueError (not_found_msg v old_phone)).

Fixpoint find_phone_loop (ps : list ref) (phone : str) : M (option ref) :=
  match ps with
  | [] => mret None
  | p :: rest =>
      val ← get_value p;
      if bool_decide (val = phone) then mret (Some p)
      else find_phone_loop rest phone
  end.

Definition find_phone (self : ref) (phone : str) : M (option ref) :=
  ps ← get_phones self; find_phone_loop ps phone.

(** [p.value for p in ps] *)
Fixpoint values_of (ps : list ref) : M (list str) :=
  match ps with
  | [] => mret []
  | p :: rest => val ← get_value p; vals ← values_of rest; mret (val :: vals)
  end.

(** [Record.__str__] *)
Definition Record_str (self : ref) : M str :=
  n ← get_name self;
  nv ← get_value n;
  ps ← get_phones self;
  vals ← values_of ps;
  mret (lit "Contact name: " ++ nv ++ lit ", phones: " ++ join (lit "; ") vals).

(** ** AddressBook *)

Definition get_data (self : ref) : M (gmap str ref) :=
  o ← load self;
  match o with
  | OBook d => mret d
  | _ => raise AttributeError
  end.

Definition AddressBook_init : M ref := alloc (OBook ∅).

(** [self.data[record.name.value] = record] *)
Definition add_record (self record : ref) : M unit :=
  d ← get_data self;
  n ← get_name record;
  key ← get_value n;
  save self (OBook (<[key := record]> d)).

(** [self.data.get(name)] *)
Definition find (self : ref) (name : str) : M (option ref) :=
  d ← get_data self; mret (d !! name).

Definition delete (self : ref) (name : str) : M unit :=
  d ← get_data self;
  if bool_decide (is_Some (d !! name))
  then save self (OBook (base.delete name d))
  else mret ().

(** ** Observations on a store *)

Definition record_phones (σ : store) (r : ref) : option (list ref) :=
  match σ !! r with
  | Some (ORecord _ ps) => Some ps
  | _ => None
  end.

Definition phone_value (σ : store) (p : ref) : option str :=
  match σ !! p with
  | Some (OField Phone s) => Some s
  | _ => None
  end.

Definition phone_values (σ : store) (r : ref) : option (list str) :=
  ps ← record_phones σ r; mapM (phone_value σ) ps.

Definition record_name (σ : store) (r : ref) : option str :=
  match σ !! r with
  | Some (ORecord n _) =>
      match σ !! n with
      | Some (OField _ s) => Some s
      | _ => None
      end
  | _ => None
  end.

Definition book_data (σ : store) (b : ref) : option (gmap str ref) :=
  match σ !! b with
  | Some (OBook d) => Some d
  | _ => None
  end.

(** The demonstration run of privo.py, up to the edit. *)
Definition demo (v : variant) : M (ref * str) :=
  book ← AddressBook_init;
  andriy ← Record_init v (lit "Andriy");
  add_phone v andriy (lit "0981234567");;
  add_phone v andriy (lit "0509876543");;
  add_record book andriy;;
  found ← find book (lit "Andriy");
  match found with
  | Some r => edit_phone v r (lit "0981234567") (lit "0631112233");;
              s ← Record_str r; mret (r, s)
  | None => raise AttributeError
  end.

(** ** Sequences of operations *)

(** The test both variants apply to a candidate phone number. *)
Definition accepted (s : str) : bool := isdigit s && bool_decide (length s = 10).

(** What the assignment [phone.value = s] lets through for a [Phone]. *)
Definition setter_accepts (v : variant) (s : str) : bool :=
  match v with
  | Privo => accepted s
  | Telia => true
  end.

(** The first entry equal to [old] becomes [new]. *)
Fixpoint replace_first (old new : str) (vs : list str) : list str :=
  match vs with
  | [] => []
  | x :: rest =>
      if bool_decide (x = old) then new :: rest
      else x :: replace_first old new rest
  end.

(** Calls a client can make. *)
Inductive op :=
  | NewPhone (raw : str)
  | NewRecord (name : str)
  | NewBook
  | AddPhone (r : ref) (raw : str)
  | RemovePhone (r : ref) (raw : str)
  | EditPhone (r : ref) (old new : str)
  | SetValue (o : ref) (raw : str)
  | AddRecord (b r : ref)
  | Delete (b : ref) (name : str).

Definition run_op (v : variant) (o : op) : M unit :=
  match o with
  | NewPhone raw => Phone_init v raw;; mret ()
  | NewRecord name => Record_init v name;; mret ()
  | NewBook => AddressBook_init;; mret ()
  | AddPhone r raw => add_phone v r raw
  | RemovePhone r raw => remove_phone r raw
  | EditPhone r old new => edit_phone v r old new
  | SetValue o raw => set_value v o raw
  | AddRecord b r => add_record b r
  | Delete b name => delete b name
  end.

(** The client catches whatever a call raises and carries on. *)
Definition run_ops (v : variant) (ops : list op) (σ : store) : store :=
  foldl (λ σ o, (run_op v o σ).2) σ ops.

Definition assigns (o : op) : bool :=
  match o with
  | EditPhone _ _ _ | SetValue _ _ => true
  | _ => false
  end.

(** [p] is a [Phone] instance whose value satisfies [P]. *)
Definition phone_with (P : str → Prop) (σ : store) (p : ref) : Prop :=
  ∃ s, σ !! p = Some (OField Phone s) ∧ P s.

(** Every record holds distinct [Phone] instances whose values satisfy [P]. *)
Definition records_hold (P : str → Prop) (σ : store) : Prop :=
  ∀ r n ps, σ !! r = Some (ORecord n ps) →
    NoDup ps ∧ Forall (phone_with P σ) ps.

Definition phones_conform (σ : store) : Prop :=
  records_hold (λ s, accepted s = true) σ.

(** The phones [ps] are [Phone] instances with values [vs], in order. *)
Definition hold (σ : store) (ps : list ref) (vs : list str) : Prop :=
  Forall2 (λ p s, phone_value σ p = Some s) ps vs.

(** Calls on an address book. *)
Definition book_op (o : op) : bool :=
  match o with
  | AddRecord _ _ | Delete _ _ => true
  | _ => false
  end.

(** The single changes that the methods of the field classes and of
    [Record] make to a store.  [acc] is the test that a value has passed
    when it is written into a [Phone]. *)
Inductive effect (acc : str → bool) (σ : store) : store → Prop :=
  | eff_new_field c s :
      effect acc σ (<[fresh (dom σ) := OField c s]> σ)
  | eff_new_record n :
      effect acc σ (<[fresh (dom σ) := ORecord n []]> σ)
  | eff_new_book :
      effect acc σ (<[fresh (dom σ) := OBook ∅]> σ)
  | eff_value l c old new :
      σ !! l = Some (OField c old) →
      (c = Phone → acc new = true) →
      effect acc σ (<[l := OField c new]> σ)
  | eff_append r n ps s :
      σ !! r = Some (ORecord n ps) →
      acc s = true →
      effect acc σ (<[r := ORecord n (ps ++ [fresh (dom σ)])]>
                      (<[fresh (dom σ) := OField Phone s]> σ))
  | eff_keep r n ps kept :
      σ !! r = Some (ORecord n ps) →
      kept `sublist_of` ps →
      effect acc σ (<[r := ORecord n kept]> σ).

(** The test behind the writes of a call: assignments go through the
    setter, everything else through the constructor. *)
Definition op_acc (v : variant) (o : op) : str → bool :=
  if assigns o then setter_accepts v else accepted.

(** No [Phone] instance is held by two records. *)
Definition phones_apart (σ : store) : Prop :=
  ∀ r r' n n' ps ps' p,
    r ≠ r' → σ !! r = Some (ORecord n ps) → σ !! r' = Some (ORecord n' ps') →
    p ∈ ps → p ∉ ps'.

(** What one call of [add_phone], [remove_phone] or [edit_phone] on the
    record [r], which refers to the name [n] and holds [ps], can have done
    to the store; [assign] says whether the call may assign to a phone. *)
Inductive record_change (assign : bool) (σ : store) (r n : ref) (ps : list ref)
  : store → Prop :=
  | rc_none :
      record_change assign σ r n ps σ
  | rc_stray s :
      record_change assign σ r n ps (<[fresh (dom σ) := OField Phone s]> σ)
  | rc_append s :
      record_change assign σ r n ps
        (<[r := ORecord n (ps ++ [fresh (dom σ)])]>
           (<[fresh (dom σ) := OField Phone s]> σ))
  | rc_keep kept :
      kept `sublist_of` ps →
      record_change assign σ r n ps (<[r := ORecord n kept]> σ)
  | rc_value p old new :
      assign = true → p ∈ ps → σ !! p = Some (OField Phone old) →
      record_change assign σ r n ps (<[p := OField Phone new]> σ).

(** The value a call assigns to a phone, when it is an assignment. *)
Definition assigned (o : op) : option str :=
  match o with
  | EditPhone _ _ new => Some new
  | SetValue _ raw => Some raw
  | _ => None
  end.

(** The call assigns nothing, or a value that passes the test. *)
Definition assigns_accepted (o : op) : bool :=
  match assigned o with
  | Some new => accepted new
  | None => true
  end.

(** What a call can write into a [Phone]: an assignment writes the
    value it is given, if the setter lets it through; every other call
    writes only what the constructor has taken. *)
Definition written_by (v : variant) (o : op) : str → bool :=
  match assigned o with
  | Some new => λ s, bool_decide (s = new) && setter_accepts v s
  | None => accepted
  end.

(** * Properties *)

(** ** The monad and the primitive accesses *)

Lemma run_bind {A B} (m : M A) (f : A → M B) σ :
  (m ≫= f) σ =
  match m σ with
  | (Ret a, σ') => f a σ'
  | (Raise e, σ') => (Raise e, σ')
  end.
Proof. reflexivity. Qed.

Lemma run_bind_ret {A B} (m : M A) (f : A → M B) σ a σ' :
  m σ = (Ret a, σ') → (m ≫= f) σ = f a σ'.
Proof. intros E. by rewrite run_bind, E. Qed.

Lemma run_bind_raise {A B} (m : M A) (f : A → M B) σ e σ' :
  m σ = (Raise e, σ') → (m ≫= f) σ = (Raise e, σ').
Proof. intros E. by rewrite run_bind, E. Qed.

Lemma alloc_fresh (σ : store) : σ !! fresh (dom σ) = None.
Proof. apply not_elem_of_dom, is_fresh. Qed.

Lemma load_Some (σ : store) l o : σ !! l = Some o → load l σ = (Ret o, σ).
Proof. unfold load. by intros ->. Qed.

Lemma get_value_field (σ : store) l c s :
  σ !! l = Some (OField c s) → get_value l σ = (Ret s, σ).
Proof. intros E. unfold get_value. by rewrite (run_bind_ret _ _ _ _ _ (load_Some _ _ _ E)). Qed.

Lemma get_name_record (σ : store) r n ps :
  σ !! r = Some (ORecord n ps) → get_name r σ = (Ret n, σ).
Proof. intros E. unfold get_name. by rewrite (run_bind_ret _ _ _ _ _ (load_Some _ _ _ E)). Qed.

Lemma get_phones_record (σ : store) r n ps :
  σ !! r = Some (ORecord n ps) → get_phones r σ = (Ret ps, σ).
Proof. intros E. unfold get_phones. by rewrite (run_bind_ret _ _ _ _ _ (load_Some _ _ _ E)). Qed.

Lemma set_phones_record (σ : store) r n ps ps' :
  σ !! r = Some (ORecord n ps) →
  set_phones r ps' σ = (Ret (), <[r := ORecord n ps']> σ).
Proof. intros E. unfold set_phones. by rewrite (run_bind_ret _ _ _ _ _ (load_Some _ _ _ E)). Qed.

Lemma get_data_book (σ : store) b d :
  σ !! b = Some (OBook d) → get_data b σ = (Ret d, σ).
Proof. intros E. unfold get_data. by rewrite (run_bind_ret _ _ _ _ _ (load_Some _ _ _ E)). Qed.

(** ** The digit test *)

Lemma rejected_iff s :
  negb (isdigit s) || bool_decide (length s ≠ 10) = negb (accepted s).
Proof.
  unfold accepted. destruct (isdigit s); simpl; [|done].
  by rewrite bool_decide_not.
Qed.

Lemma validate_phone_run s σ :
  validate_phone s σ =
  if accepted s then (Ret (), σ) else (Raise (ValueError validation_msg), σ).
Proof. unfold validate_phone. rewrite rejected_iff. by destruct (accepted s). Qed.

Lemma ascii_digit_isdigit c : char_is_ascii_digit c = true → char_isdigit c = true.
Proof. unfold char_isdigit, digit_ranges. simpl. unfold char_is_ascii_digit. by intros ->. Qed.

Lemma forallb_mono {A} (f g : A → bool) (l : list A) :
  (∀ x, f x = true → g x = true) → forallb f l = true → forallb g l = true.
Proof.
  intros Hfg. induction l as [|x l IH]; simpl; [done|].
  rewrite !andb_true_iff. intros [??]. auto.
Qed.

(** Ten characters of '0'..'9' always pass the test of the code. *)
Lemma ten_ascii_digits_accepted s : ten_ascii_digits s = true → accepted s = true.
Proof.
  unfold ten_ascii_digits, accepted, isdigit.
  intros [Hlen Hall]%andb_true_iff.
  apply bool_decide_eq_true in Hlen.
  rewrite !andb_true_iff. split_and!.
  - apply negb_true_iff, bool_decide_eq_false. by intros ->.
  - revert Hall. apply forallb_mono, ascii_digit_isdigit.
  - by apply bool_decide_eq_true.
Qed.

Lemma existsb_above (c : N) (l : list (N * N)) :
  (c < 128)%N → forallb (λ r, (128 <=? r.1)%N) l = true →
  existsb (λ r, (r.1 <=? c)%N && (c <=? r.2)%N) l = false.
Proof.
  intros Hc. induction l as [|[a b] l IH]; simpl; [done|].
  intros [Ha Hl]%andb_true_iff. rewrite (IH Hl), orb_false_r.
  apply N.leb_le in Ha. apply andb_false_iff. left. apply N.leb_gt. lia.
Qed.

Lemma char_isdigit_ascii (c : N) :
  (c < 128)%N → char_isdigit c = char_is_ascii_digit c.
Proof.
  intros Hc. unfold char_isdigit.
  change digit_ranges with ((48, 57)%N :: tail digit_ranges).
  cbn [existsb]. rewrite existsb_above; [apply orb_false_r | done | by vm_compute].
Qed.

Lemma ascii_not_ten_digits_rejected (s : str) :
  Forall (λ c, (c < 128)%N) s → ten_ascii_digits s = false → accepted s = false.
Proof.
  intros Hs. unfold accepted, ten_ascii_digits, isdigit.
  assert (forallb char_isdigit s = forallb char_is_ascii_digit s) as ->.
  { induction Hs as [|c s Hc _ IH]; simpl; [done|].
    by rewrite IH, char_isdigit_ascii. }
  intros [H|H]%andb_false_iff; rewrite H; by rewrite ?andb_false_r.
Qed.

(** ** Phone: construction and assignment *)

Lemma set_value_privo_phone (σ : store) p old s :
  σ !! p = Some (OField Phone old) →
  set_value Privo p s σ =
  if accepted s then (Ret (), <[p := OField Phone s]> σ)
  else (Raise (ValueError validation_msg), σ).
Proof.
  intros E. unfold set_value.
  rewrite (run_bind_ret _ _ _ _ _ (load_Some _ _ _ E)).
  rewrite run_bind, validate_phone_run. by destruct (accepted s).
Qed.

Lemma set_value_ok v (σ : store) l c old s :
  σ !! l = Some (OField c old) →
  (c = Phone → setter_accepts v s = true) →
  set_value v l s σ = (Ret (), <[l := OField c s]> σ).
Proof.
  intros E Hs. unfold set_value.
  rewrite (run_bind_ret _ _ _ _ _ (load_Some _ _ _ E)).
  destruct v, c; try done. simpl in Hs.
  by rewrite run_bind, validate_phone_run, Hs.
Qed.

Lemma Phone_init_run v s σ :
  Phone_init v s σ =
  if accepted s
  then (Ret (fresh (dom σ)), <[fresh (dom σ) := OField Phone s]> σ)
  else (Raise (ValueError validation_msg),
        match v with
        | Privo => <[fresh (dom σ) := OField Phone []]> σ
        | Telia => σ
        end).
Proof.
  destruct v; simpl.
  - unfold Field_init. rewrite run_bind. simpl.
    rewrite run_bind.
    rewrite (set_value_privo_phone _ _ []) by apply lookup_insert_eq.
    destruct (accepted s); [|done]. by rewrite insert_insert_eq.
  - rewrite rejected_iff. by destruct (accepted s).
Qed.

(** C3 (amended): in both variants constructing a [Phone] from [s] fails
    with the validation [ValueError] exactly when [s] does not pass
    [isdigit] at length 10, and on success a new instance holds [s]
    verbatim; in privo.py assigning [s] to the value of an existing
    [Phone] fails under the same condition, leaving the store (and so the
    prior value) untouched, and otherwise stores [s]. *)
Theorem Phone_value_checked (v : variant) (s : str) (σ : store) :
  ((∃ σ', Phone_init v s σ = (Raise (ValueError validation_msg), σ'))
     ↔ accepted s = false)
  ∧ (accepted s = true →
       ∃ p, σ !! p = None ∧ Phone_init v s σ = (Ret p, <[p := OField Phone s]> σ))
  ∧ (∀ p old, σ !! p = Some (OField Phone old) →
       (set_value Privo p s σ = (Raise (ValueError validation_msg), σ)
          ↔ accepted s = false)
       ∧ (accepted s = true →
            set_value Privo p s σ = (Ret (), <[p := OField Phone s]> σ))).
Proof.
  split_and!.
  - rewrite Phone_init_run. destruct (accepted s); split; try done.
    + by intros [? ?].
    + eauto.
  - intros Hs. exists (fresh (dom σ)). split; [apply alloc_fresh|].
    by rewrite Phone_init_run, Hs.
  - intros p old Hp. rewrite (set_value_privo_phone _ _ _ _ Hp).
    destruct (accepted s); split; try done.
Qed.

Lemma Phone_value_checked_witness :
  let σ : store := {[ 0 := OField Phone (lit "0675554433") ]} in
  (∃ p, σ !! p = None ∧
        Phone_init Telia (lit "0981234567") σ
        = (Ret p, <[p := OField Phone (lit "0981234567")]> σ))
  ∧ set_value Privo 0 (lit "0981234567") σ
    = (Ret (), <[0 := OField Phone (lit "0981234567")]> σ).
Proof.
  intros σ. split.
  - apply (Phone_value_checked Telia (lit "0981234567") σ). reflexivity.
  - destruct (Phone_value_checked Privo (lit "0981234567") σ) as (_ & _ & H).
    apply (H 0 (lit "0675554433")); reflexivity.
Defined.

(** C3 as stated fails: a string that is not made of '0'..'9' is taken by
    the constructor of either variant and by the setter of privo.py. *)
Lemma Phone_takes_non_ascii_digits :
  ten_ascii_digits arabic_indic = false
  ∧ Phone_init Privo arabic_indic ∅ = (Ret 0, {[ 0 := OField Phone arabic_indic ]})
  ∧ Phone_init Telia arabic_indic ∅ = (Ret 0, {[ 0 := OField Phone arabic_indic ]})
  ∧ set_value Privo 0 arabic_indic {[ 0 := OField Phone (lit "0675554433") ]}
    = (Ret (), {[ 0 := OField Phone arabic_indic ]}).
Proof. split_and!; by vm_compute. Qed.

(** ** Reading the phones of a record *)

Lemma phone_value_Some (σ : store) p s :
  phone_value σ p = Some s ↔ σ !! p = Some (OField Phone s).
Proof.
  unfold phone_value.
  destruct (σ !! p) as [[[] ?| |]|]; split; intros; by simplify_eq.
Qed.

Lemma phone_values_Some (σ : store) r vs :
  phone_values σ r = Some vs ↔
  ∃ n ps, σ !! r = Some (ORecord n ps) ∧ hold σ ps vs.
Proof.
  unfold phone_values, record_phones, hold.
  destruct (σ !! r) as [[| n ps |]|]; simpl;
    try (split; [done | by intros (? & ? & ? & _)]).
  rewrite mapM_Some. split; [eauto|].
  intros (? & ? & ? & ?). by simplify_eq.
Qed.

Lemma hold_not_elem (σ : store) ps vs l :
  hold σ ps vs → phone_value σ l = None → l ∉ ps.
Proof.
  intros H Hl [i Hi]%list_elem_of_lookup.
  destruct (Forall2_lookup_l _ _ _ i l H Hi) as (? & _ & ?). congruence.
Qed.

Lemma phone_value_insert_ne (σ : store) l o p :
  p ≠ l → phone_value (<[l := o]> σ) p = phone_value σ p.
Proof. intros. unfold phone_value. by rewrite lookup_insert_ne. Qed.

Lemma hold_insert (σ : store) ps vs l o :
  hold σ ps vs → l ∉ ps → hold (<[l := o]> σ) ps vs.
Proof.
  unfold hold. induction 1 as [|p s ps vs Hp _ IH]; intros Hl; constructor.
  - rewrite phone_value_insert_ne; [done|]. set_solver.
  - apply IH. set_solver.
Qed.

Lemma values_of_run (σ : store) ps vs :
  hold σ ps vs → values_of ps σ = (Ret vs, σ).
Proof.
  induction 1 as [|p s ps vs Hp _ IH]; simpl; [done|].
  apply phone_value_Some in Hp.
  rewrite (run_bind_ret _ _ _ _ _ (get_value_field _ _ _ _ Hp)).
  by rewrite (run_bind_ret _ _ _ _ _ IH).
Qed.

(** ** remove_phone *)

Lemma phones_except_run (σ : store) ps vs raw :
  hold σ ps vs →
  phones_except ps raw σ
  = (Ret (filter (λ p, phone_value σ p ≠ Some raw) ps), σ).
Proof.
  induction 1 as [|p s ps vs Hp _ IH]; simpl; [done|].
  rewrite filter_cons.
  rewrite (run_bind_ret _ _ _ _ _
             (get_value_field _ _ _ _ (proj1 (phone_value_Some _ _ _) Hp))).
  rewrite (run_bind_ret _ _ _ _ _ IH). rewrite Hp.
  case_bool_decide; case_decide; try done; exfalso; naive_solver.
Qed.

Lemma hold_filter (σ : store) ps vs raw :
  hold σ ps vs →
  hold σ (filter (λ p, phone_value σ p ≠ Some raw) ps) (filter (λ s, s ≠ raw) vs).
Proof.
  induction 1 as [|p s ps vs Hp _ IH]; [constructor|].
  rewrite !filter_cons, Hp.
  repeat case_decide; try (exfalso; naive_solver); [by constructor | done].
Qed.

Lemma filter_absent (σ : store) ps vs raw :
  hold σ ps vs → raw ∉ vs →
  filter (λ p, phone_value σ p ≠ Some raw) ps = ps.
Proof.
  induction 1 as [|p s ps vs Hp _ IH]; [done|].
  intros [? ?]%not_elem_of_cons.
  rewrite filter_cons, Hp, decide_True by congruence. f_equal. auto.
Qed.

Lemma record_not_phone (σ : store) r n ps :
  σ !! r = Some (ORecord n ps) → phone_value σ r = None.
Proof. unfold phone_value. by intros ->. Qed.

(** C7: [remove_phone] raises nothing and leaves exactly the entries whose
    value differs from [raw], in their order (so every duplicate of [raw]
    goes); when no entry has value [raw] the store is not changed at all. *)
Theorem remove_phone_removes_all (r : ref) (raw : str) (σ : store) (vs : list str) :
  phone_values σ r = Some vs →
  ∃ σ', remove_phone r raw σ = (Ret (), σ')
        ∧ phone_values σ' r = Some (filter (λ s, s ≠ raw) vs)
        ∧ (raw ∉ vs → σ' = σ).
Proof.
  intros (n & ps & Hr & Hps)%phone_values_Some.
  exists (<[r := ORecord n (filter (λ p, phone_value σ p ≠ Some raw) ps)]> σ).
  split_and!.
  - unfold remove_phone.
    rewrite (run_bind_ret _ _ _ _ _ (get_phones_record _ _ _ _ Hr)).
    rewrite (run_bind_ret _ _ _ _ _ (phones_except_run _ _ _ raw Hps)).
    by apply set_phones_record with ps.
  - apply phone_values_Some. eexists _, _. split; [apply lookup_insert_eq|].
    apply hold_insert; [by apply hold_filter|].
    eapply hold_not_elem; [by apply hold_filter|]. by eapply record_not_phone.
  - intros Hraw. rewrite (filter_absent _ _ _ _ Hps Hraw). by apply insert_id.
Qed.

Lemma remove_phone_removes_all_witness :
  let σ : store :=
    {[ 0 := OField Name (lit "Maria"); 1 := ORecord 0 [2; 3; 4];
       2 := OField Phone (lit "0675554433"); 3 := OField Phone (lit "0509876543");
       4 := OField Phone (lit "0675554433") ]} in
  ∃ σ', remove_phone 1 (lit "0675554433") σ = (Ret (), σ')
        ∧ phone_values σ' 1 = Some [lit "0509876543"]
        ∧ (lit "0675554433" ∉ [lit "0675554433"; lit "0509876543"; lit "0675554433"]
           → σ' = σ).
Proof.
  intros σ.
  apply (remove_phone_removes_all 1 (lit "0675554433") σ
           [lit "0675554433"; lit "0509876543"; lit "0675554433"]).
  reflexivity.
Defined.

(** ** add_phone *)

Lemma hold_snoc (σ : store) ps vs p s :
  hold σ ps vs → phone_value σ p = Some s → hold σ (ps ++ [p]) (vs ++ [s]).
Proof. intros. apply Forall2_app; [done|]. by constructor. Qed.

(** C6 (amended): [add_phone] builds the [Phone] first.  When [raw]
    passes the test of the code (ten characters, [isdigit]) the record
    ends up with its former phones followed by one new entry of value
    [raw]; when [raw] fails it the validation [ValueError] comes out of
    [add_phone], the record still refers to the same phone instances with
    the same values, and no instance that existed before has changed.
    Every string of ten characters '0'..'9' passes the test, and a string
    of ASCII characters that is not of that form fails it. *)
Theorem add_phone_appends_or_rejects
    (v : variant) (r : ref) (raw : str) (σ : store) (vs : list str) :
  phone_values σ r = Some vs →
  (accepted raw = true →
     ∃ σ', add_phone v r raw σ = (Ret (), σ')
           ∧ phone_values σ' r = Some (vs ++ [raw]))
  ∧ (accepted raw = false →
     ∃ σ', add_phone v r raw σ = (Raise (ValueError validation_msg), σ')
           ∧ record_phones σ' r = record_phones σ r
           ∧ phone_values σ' r = Some vs
           ∧ ∀ l o, σ !! l = Some o → σ' !! l = Some o)
  ∧ (ten_ascii_digits raw = true → accepted raw = true)
  ∧ (Forall (λ c, (c < 128)%N) raw → ten_ascii_digits raw = false →
     accepted raw = false).
Proof.
  intros (n & ps & Hr & Hps)%phone_values_Some.
  rewrite !assoc by apply _.
  split; [split|]; [|apply ten_ascii_digits_accepted
                    |apply ascii_not_ten_digits_rejected].
  pose proof (alloc_fresh σ) as Hfresh.
  assert (fresh (dom σ) ≠ r) as Hne by congruence.
  assert (fresh (dom σ) ∉ ps) as Hnotin.
  { eapply hold_not_elem; [done|]. unfold phone_value. by rewrite Hfresh. }
  unfold add_phone.
  rewrite (run_bind_ret _ _ _ _ _ (get_phones_record _ _ _ _ Hr)).
  rewrite run_bind, Phone_init_run.
  split; intros Hraw; rewrite Hraw.
  - set (p := fresh (dom σ)) in *.
    set (σ1 := <[p := OField Phone raw]> σ).
    assert (σ1 !! r = Some (ORecord n ps)) as Hr1
      by (unfold σ1; by rewrite lookup_insert_ne).
    rewrite (run_bind_ret _ _ _ _ _ (get_phones_record _ _ _ _ Hr1)).
    rewrite (set_phones_record _ _ _ _ _ Hr1).
    eexists. split; [done|].
    apply phone_values_Some. eexists _, _. split; [apply lookup_insert_eq|].
    apply hold_insert.
    + apply hold_snoc; [by apply hold_insert|].
      apply phone_value_Some, lookup_insert_eq.
    + intros [Hin | ->%list_elem_of_singleton]%elem_of_app; [|done].
      eapply hold_not_elem in Hin; [done..|]. by eapply record_not_phone.
  - destruct v.
    + eexists. split; [done|]. split_and!.
      * unfold record_phones. by rewrite lookup_insert_ne.
      * apply phone_values_Some. exists n, ps.
        split; [by rewrite lookup_insert_ne | by apply hold_insert].
      * intros l o Hl. rewrite lookup_insert_ne; [done|]. congruence.
    + eexists. split; [done|]. split_and!; [done| |done].
      apply phone_values_Some. eauto.
Qed.

Lemma add_phone_appends_or_rejects_witness :
  let σ : store :=
    {[ 0 := OField Name (lit "Andriy"); 1 := ORecord 0 [2];
       2 := OField Phone (lit "0981234567") ]} in
  (∃ σ', add_phone Privo 1 (lit "0509876543") σ = (Ret (), σ')
         ∧ phone_values σ' 1 = Some [lit "0981234567"; lit "0509876543"])
  ∧ (∃ σ', add_phone Telia 1 (lit "098-123-45") σ
           = (Raise (ValueError validation_msg), σ')
           ∧ record_phones σ' 1 = record_phones σ 1
           ∧ phone_values σ' 1 = Some [lit "0981234567"]
           ∧ ∀ l o, σ !! l = Some o → σ' !! l = Some o)
  ∧ accepted (lit "0509876543") = true
  ∧ accepted (lit "098-123-45") = false.
Proof.
  intros σ. split_and!.
  - apply (add_phone_appends_or_rejects Privo 1 (lit "0509876543") σ
             [lit "0981234567"]); reflexivity.
  - apply (add_phone_appends_or_rejects Telia 1 (lit "098-123-45") σ
             [lit "0981234567"]); reflexivity.
  - apply (add_phone_appends_or_rejects Privo 1 (lit "0509876543") σ
             [lit "0981234567"]); reflexivity.
  - apply (add_phone_appends_or_rejects Telia 1 (lit "098-123-45") σ
             [lit "0981234567"]); [reflexivity| |reflexivity].
    apply (bool_decide_unpack _). vm_compute. exact I.
Defined.

(** C6 as stated fails: ten SUPERSCRIPT TWOs are not ten characters
    '0'..'9', yet [add_phone] raises nothing and appends them, in both
    variants. *)
Lemma add_phone_takes_superscripts :
  let σ : store :=
    {[ 0 := OField Name (lit "Andriy"); 1 := ORecord 0 [2];
       2 := OField Phone (lit "0981234567") ]} in
  ten_ascii_digits superscripts = false
  ∧ (add_phone Privo 1 superscripts σ).1 = Ret ()
  ∧ phone_values (add_phone Privo 1 superscripts σ).2 1
    = Some [lit "0981234567"; superscripts]
  ∧ (add_phone Telia 1 superscripts σ).1 = Ret ()
  ∧ phone_values (add_phone Telia 1 superscripts σ).2 1
    = Some [lit "0981234567"; superscripts].
Proof. intros σ. split_and!; by vm_compute. Qed.

(** ** edit_phone *)

Lemma accepted_setter v s : accepted s = true → setter_accepts v s = true.
Proof. by destruct v. Qed.

Lemma edit_phone_loop_absent v (σ : store) ps vs old new :
  hold σ ps vs → old ∉ vs →
  edit_phone_loop v ps old new σ = (Ret false, σ).
Proof.
  induction 1 as [|p s ps vs Hp _ IH]; simpl; [done|].
  intros [? ?]%not_elem_of_cons.
  rewrite (run_bind_ret _ _ _ _ _
             (get_value_field _ _ _ _ (proj1 (phone_value_Some _ _ _) Hp))).
  rewrite bool_decide_eq_false_2 by congruence. auto.
Qed.

Lemma edit_phone_loop_found v (σ : store) ps vs old new :
  hold σ ps vs → NoDup ps → old ∈ vs → setter_accepts v new = true →
  ∃ p, p ∈ ps ∧ phone_value σ p = Some old
       ∧ edit_phone_loop v ps old new σ = (Ret true, <[p := OField Phone new]> σ)
       ∧ hold (<[p := OField Phone new]> σ) ps (replace_first old new vs).
Proof.
  intros H. induction H as [|p s ps vs Hp Hps IH]; intros Hnd Hin Hnew.
  { by apply elem_of_nil in Hin. }
  apply NoDup_cons in Hnd as [Hp_notin Hnd]. simpl.
  pose proof (proj1 (phone_value_Some _ _ _) Hp) as Hp'.
  rewrite (run_bind_ret _ _ _ _ _ (get_value_field _ _ _ _ Hp')).
  case_bool_decide as Hs.
  - subst s. exists p. split_and!; [apply elem_of_cons; by left|done| |].
    + by rewrite (run_bind_ret _ _ _ _ _ (set_value_ok v _ _ _ _ new Hp' (λ _, Hnew))).
    + constructor; [apply phone_value_Some, lookup_insert_eq|].
      by apply hold_insert.
  - apply elem_of_cons in Hin as [?|Hin]; [done|].
    destruct (IH Hnd Hin Hnew) as (q & Hq & Hqv & Hrun & Hhold).
    exists q. split_and!; [apply elem_of_cons; by right|done..|].
    constructor; [|done].
    rewrite phone_value_insert_ne; [done|]. by intros ->.
Qed.

Lemma edit_phone_loop_rejected (σ : store) ps vs old new :
  hold σ ps vs → old ∈ vs → accepted new = false →
  edit_phone_loop Privo ps old new σ = (Raise (ValueError validation_msg), σ).
Proof.
  induction 1 as [|p s ps vs Hp _ IH]; intros Hin Hnew.
  { by apply elem_of_nil in Hin. }
  simpl. pose proof (proj1 (phone_value_Some _ _ _) Hp) as Hp'.
  rewrite (run_bind_ret _ _ _ _ _ (get_value_field _ _ _ _ Hp')).
  case_bool_decide as Hs.
  - by rewrite run_bind, (set_value_privo_phone _ _ _ _ Hp'), Hnew.
  - apply elem_of_cons in Hin as [?|Hin]; [done|]. auto.
Qed.

(** C4: when some entry of the record has value [old] and [new] passes
    the test, [edit_phone] returns and the values of the record are the
    former ones with the first occurrence of [old] replaced by [new], held
    by the same instances; when no entry has value [old] it raises the
    "not found" [ValueError] and the store is not changed.  Both variants. *)
Theorem edit_phone_first_match
    (v : variant) (r : ref) (old new : str) (σ : store)
    (ps : list ref) (vs : list str) :
  record_phones σ r = Some ps → hold σ ps vs → NoDup ps →
  (old ∈ vs → accepted new = true →
     ∃ σ', edit_phone v r old new σ = (Ret (), σ')
           ∧ record_phones σ' r = Some ps
           ∧ phone_values σ' r = Some (replace_first old new vs))
  ∧ (old ∉ vs →
     edit_phone v r old new σ = (Raise (ValueError (not_found_msg v old)), σ)).
Proof.
  intros Hr Hps Hnd.
  assert (∃ n, σ !! r = Some (ORecord n ps)) as [n Hr'].
  { unfold record_phones in Hr.
    destruct (σ !! r) as [[]|]; simplify_eq. eauto. }
  unfold edit_phone.
  rewrite (run_bind_ret _ _ _ _ _ (get_phones_record _ _ _ _ Hr')).
  split.
  - intros Hin Hnew%(accepted_setter v).
    destruct (edit_phone_loop_found v σ ps vs old new Hps Hnd Hin Hnew)
      as (p & Hp & Hpv & Hrun & Hhold).
    rewrite (run_bind_ret _ _ _ _ _ Hrun).
    assert (p ≠ r) as Hne.
    { intros ->. apply phone_value_Some in Hpv. congruence. }
    eexists. split; [done|]. split.
    + unfold record_phones. by rewrite lookup_insert_ne, Hr'.
    + apply phone_values_Some. exists n, ps.
      split; [by rewrite lookup_insert_ne | done].
  - intros Hout.
    by rewrite (run_bind_ret _ _ _ _ _ (edit_phone_loop_absent v σ ps vs old new Hps Hout)).
Qed.

Lemma edit_phone_first_match_witness :
  let σ : store :=
    {[ 0 := OField Name (lit "Andriy"); 1 := ORecord 0 [2; 3; 4];
       2 := OField Phone (lit "0509876543"); 3 := OField Phone (lit "0981234567");
       4 := OField Phone (lit "0981234567") ]} in
  (∃ σ', edit_phone Privo 1 (lit "0981234567") (lit "0631112233") σ = (Ret (), σ')
         ∧ record_phones σ' 1 = Some [2; 3; 4]
         ∧ phone_values σ' 1
           = Some [lit "0509876543"; lit "0631112233"; lit "0981234567"])
  ∧ edit_phone Telia 1 (lit "0675554433") (lit "0631112233") σ
    = (Raise (ValueError (lit "Phone number 0675554433 not found in the record")), σ).
Proof.
  intros σ.
  assert (hold σ [2; 3; 4]
            [lit "0509876543"; lit "0981234567"; lit "0981234567"]) as Hhold
    by (repeat constructor).
  assert (NoDup [2; 3; 4]) as Hnd by (apply (bool_decide_unpack _); vm_compute; exact I).
  split.
  - apply (edit_phone_first_match Privo 1 (lit "0981234567") (lit "0631112233") σ
             [2; 3; 4] [lit "0509876543"; lit "0981234567"; lit "0981234567"]);
      [reflexivity | exact Hhold | exact Hnd | | reflexivity].
    apply (bool_decide_unpack _); vm_compute; exact I.
  - apply (edit_phone_first_match Telia 1 (lit "0675554433") (lit "0631112233") σ
             [2; 3; 4] [lit "0509876543"; lit "0981234567"; lit "0981234567"]);
      [reflexivity | exact Hhold | exact Hnd | ].
    apply (bool_decide_unpack _); vm_compute; exact I.
Defined.

(** ** What each method does to the store, on any store *)

Lemma get_phones_cases (σ : store) r :
  (∃ n ps, σ !! r = Some (ORecord n ps) ∧ get_phones r σ = (Ret ps, σ))
  ∨ (∃ e, get_phones r σ = (Raise e, σ)).
Proof.
  unfold get_phones, load. rewrite run_bind.
  destruct (σ !! r) as [[]|]; eauto.
Qed.

Lemma get_value_cases (σ : store) l :
  (∃ c s, σ !! l = Some (OField c s) ∧ get_value l σ = (Ret s, σ))
  ∨ (∃ e, get_value l σ = (Raise e, σ)).
Proof.
  unfold get_value, load. rewrite run_bind.
  destruct (σ !! l) as [[]|]; eauto.
Qed.

Lemma set_value_cases v (σ : store) l new :
  (∃ c old, σ !! l = Some (OField c old)
            ∧ (c = Phone → setter_accepts v new = true)
            ∧ set_value v l new σ = (Ret (), <[l := OField c new]> σ))
  ∨ (∃ e, set_value v l new σ = (Raise e, σ)).
Proof.
  destruct (σ !! l) as [[c old| |]|] eqn:E.
  - destruct (decide (c = Phone → setter_accepts v new = true)) as [Hacc|Hrej].
    + left. exists c, old. eauto using set_value_ok.
    + right. destruct c; try (exfalso; apply Hrej; done).
      destruct v; [|exfalso; by apply Hrej].
      rewrite (set_value_privo_phone _ _ _ _ E).
      destruct (accepted new) eqn:Hn; [exfalso; by apply Hrej | eauto].
  - right. unfold set_value, load. rewrite run_bind, E. eauto.
  - right. unfold set_value, load. rewrite run_bind, E. eauto.
  - right. unfold set_value, load. rewrite run_bind, E. eauto.
Qed.

Lemma Field_init_Name_run v name (σ : store) :
  Field_init v Name name σ
  = (Ret (fresh (dom σ)), <[fresh (dom σ) := OField Name name]> σ).
Proof.
  destruct v; [|done]. unfold Field_init. rewrite run_bind. simpl.
  rewrite run_bind.
  rewrite (set_value_ok Privo _ _ Name [] name) by (done || apply lookup_insert_eq).
  by rewrite insert_insert_eq.
Qed.

Lemma phones_except_cases (σ : store) ps raw :
  (∃ kept, kept `sublist_of` ps ∧ phones_except ps raw σ = (Ret kept, σ))
  ∨ (∃ e, phones_except ps raw σ = (Raise e, σ)).
Proof.
  induction ps as [|p ps IH]; simpl; [left; eauto|].
  destruct (get_value_cases σ p) as [(c & s & _ & Hv)|[e Hv]].
  - rewrite (run_bind_ret _ _ _ _ _ Hv).
    destruct IH as [(kept & Hsub & Hrun)|[e Hrun]].
    + rewrite (run_bind_ret _ _ _ _ _ Hrun). left.
      case_bool_decide; eexists; (split; [|done]);
        [by apply sublist_skip | by apply sublist_cons].
    + rewrite (run_bind_raise _ _ _ _ _ Hrun). eauto.
  - rewrite (run_bind_raise _ _ _ _ _ Hv). eauto.
Qed.

Lemma edit_phone_loop_cases v (σ : store) ps old new :
  ∃ out σ', edit_phone_loop v ps old new σ = (out, σ')
            ∧ (σ' = σ ∨ effect (setter_accepts v) σ σ').
Proof.
  induction ps as [|p ps IH]; simpl; [eauto|].
  destruct (get_value_cases σ p) as [(c & s & Hp & Hv)|[e Hv]].
  - rewrite (run_bind_ret _ _ _ _ _ Hv). case_bool_decide; [|done].
    destruct (set_value_cases v σ p new) as [(c' & old' & Hp' & Hacc & Hs)|[e Hs]].
    + rewrite (run_bind_ret _ _ _ _ _ Hs). do 2 eexists. split; [done|].
      right. by eapply eff_value.
    + rewrite (run_bind_raise _ _ _ _ _ Hs). eauto.
  - rewrite (run_bind_raise _ _ _ _ _ Hv). eauto.
Qed.

Lemma effect_mono (acc acc' : str → bool) (σ σ' : store) :
  (∀ s, acc s = true → acc' s = true) → effect acc σ σ' → effect acc' σ σ'.
Proof. intros Hmono []; econstructor; eauto. Qed.

Lemma Phone_init_effects v raw (σ : store) :
  rtc (effect accepted) σ (Phone_init v raw σ).2.
Proof.
  rewrite Phone_init_run. destruct (accepted raw) eqn:Hraw; simpl.
  - apply rtc_once, eff_new_field.
  - destruct v; [apply rtc_once, eff_new_field | done].
Qed.

Lemma Record_init_effects v name (σ : store) :
  rtc (effect accepted) σ (Record_init v name σ).2.
Proof.
  unfold Record_init, Name_init.
  rewrite (run_bind_ret _ _ _ _ _ (Field_init_Name_run v name σ)).
  eapply rtc_l; [apply eff_new_field|]. apply rtc_once, eff_new_record.
Qed.

Lemma add_phone_effects v r raw (σ : store) :
  rtc (effect accepted) σ (add_phone v r raw σ).2.
Proof.
  unfold add_phone.
  destruct (get_phones_cases σ r) as [(n & ps & Hr & Hg)|[e Hg]];
    [|by rewrite (run_bind_raise _ _ _ _ _ Hg)].
  rewrite (run_bind_ret _ _ _ _ _ Hg), run_bind.
  pose proof (Phone_init_effects v raw σ) as Heff.
  rewrite Phone_init_run in *. destruct (accepted raw) eqn:Hraw; [|done].
  assert (fresh (dom σ) ≠ r) as Hne by (pose proof (alloc_fresh σ); congruence).
  set (σ1 := <[fresh (dom σ) := OField Phone raw]> σ).
  assert (σ1 !! r = Some (ORecord n ps)) as Hr1
    by (unfold σ1; by rewrite lookup_insert_ne).
  rewrite (run_bind_ret _ _ _ _ _ (get_phones_record _ _ _ _ Hr1)).
  rewrite (set_phones_record _ _ _ _ _ Hr1). simpl.
  by apply rtc_once, eff_append.
Qed.

Lemma remove_phone_effects r raw (σ : store) :
  rtc (effect accepted) σ (remove_phone r raw σ).2.
Proof.
  unfold remove_phone.
  destruct (get_phones_cases σ r) as [(n & ps & Hr & Hg)|[e Hg]];
    [|by rewrite (run_bind_raise _ _ _ _ _ Hg)].
  rewrite (run_bind_ret _ _ _ _ _ Hg).
  destruct (phones_except_cases σ ps raw) as [(kept & Hsub & Hrun)|[e Hrun]];
    [|by rewrite (run_bind_raise _ _ _ _ _ Hrun)].
  rewrite (run_bind_ret _ _ _ _ _ Hrun), (set_phones_record _ _ _ _ _ Hr).
  by eapply rtc_once, eff_keep.
Qed.

Lemma edit_phone_effects v r old new (σ : store) :
  rtc (effect (setter_accepts v)) σ (edit_phone v r old new σ).2.
Proof.
  unfold edit_phone.
  destruct (get_phones_cases σ r) as [(n & ps & Hr & Hg)|[e Hg]];
    [|by rewrite (run_bind_raise _ _ _ _ _ Hg)].
  rewrite (run_bind_ret _ _ _ _ _ Hg), run_bind.
  destruct (edit_phone_loop_cases v σ ps old new) as (out & σ' & -> & Hσ').
  assert (rtc (effect (setter_accepts v)) σ σ') as Hrtc.
  { destruct Hσ' as [->|?]; [done | by apply rtc_once]. }
  by destruct out as [[]|].
Qed.

Lemma set_value_effects v l new (σ : store) :
  rtc (effect (setter_accepts v)) σ (set_value v l new σ).2.
Proof.
  destruct (set_value_cases v σ l new) as [(c & old & Hl & Hacc & ->)|[e ->]];
    [|done].
  by eapply rtc_once, eff_value.
Qed.

(** Every call that is not made on an address book changes the store by
    these effects only. *)
Lemma run_op_effects v o (σ : store) :
  book_op o = false → rtc (effect (op_acc v o)) σ (run_op v o σ).2.
Proof.
  destruct o; try done; intros _; unfold op_acc; simpl.
  - rewrite run_bind. pose proof (Phone_init_effects v raw σ) as H.
    by destruct (Phone_init v raw σ) as [[] ?].
  - rewrite run_bind. pose proof (Record_init_effects v name σ) as H.
    by destruct (Record_init v name σ) as [[] ?].
  - apply rtc_once, eff_new_book.
  - apply add_phone_effects.
  - apply remove_phone_effects.
  - apply edit_phone_effects.
  - apply set_value_effects.
Qed.

(** ** Invariants of the store *)

Lemma phone_with_insert_ne P (σ : store) l o p :
  p ≠ l → phone_with P σ p → phone_with P (<[l := o]> σ) p.
Proof. intros Hne (s & Hp & Hs). exists s. by rewrite lookup_insert_ne. Qed.

Lemma records_hold_insert P (σ : store) l o :
  records_hold P σ →
  (phone_with P σ l → phone_with P (<[l := o]> σ) l) →
  (∀ n ps, o = ORecord n ps →
           NoDup ps ∧ Forall (phone_with P (<[l := o]> σ)) ps) →
  records_hold P (<[l := o]> σ).
Proof.
  intros HI Hl Ho r n ps Hr. destruct (decide (r = l)) as [->|Hne].
  { rewrite lookup_insert_eq in Hr. injection Hr as ->. by apply (Ho n ps). }
  rewrite lookup_insert_ne in Hr by done.
  destruct (HI _ _ _ Hr) as [Hnd Hall]. split; [done|].
  eapply Forall_impl; [done|]. intros p Hp.
  destruct (decide (p = l)) as [->|]; [auto | by apply phone_with_insert_ne].
Qed.

Lemma effect_records_hold acc P (σ σ' : store) :
  (∀ s, acc s = true → P s) →
  effect acc σ σ' → records_hold P σ → records_hold P σ'.
Proof.
  intros Hacc Heff HI. pose proof (alloc_fresh σ) as Hfresh.
  destruct Heff as [c s|n| |l c old new Hl Hnew|r n ps s Hr Hs|r n ps kept Hr Hsub].
  - apply records_hold_insert; [done| |done].
    intros (? & ? & _). congruence.
  - apply records_hold_insert; [done| |].
    + intros (? & ? & _). congruence.
    + intros ?? [= <- <-]. split; constructor.
  - apply records_hold_insert; [done| |done].
    intros (? & ? & _). congruence.
  - apply records_hold_insert; [done| |done].
    intros (s & Hl' & _). exists new. rewrite lookup_insert_eq.
    assert (c = Phone) as -> by congruence. auto.
  - destruct (HI _ _ _ Hr) as [Hnd Hall].
    assert (fresh (dom σ) ≠ r) as Hne by congruence.
    assert (fresh (dom σ) ∉ ps) as Hnotin.
    { intros Hin. rewrite Forall_forall in Hall.
      destruct (Hall _ Hin) as (? & ? & _). congruence. }
    apply records_hold_insert.
    + apply records_hold_insert; [done| |done].
      intros (? & ? & _). congruence.
    + intros (? & Hr' & _). rewrite lookup_insert_ne in Hr' by done. congruence.
    + intros ?? [= <- <-]. split.
      * apply NoDup_app. split_and!; [done| |apply NoDup_singleton].
        intros q Hq ->%list_elem_of_singleton. done.
      * apply Forall_app. split.
        -- eapply Forall_impl; [done|]. intros q Hq.
           assert (q ≠ r) by (intros ->; destruct Hq as (? & ? & _); congruence).
           assert (q ≠ fresh (dom σ))
             by (intros ->; destruct Hq as (? & ? & _); congruence).
           by do 2 (apply phone_with_insert_ne; [done|]).
        -- apply Forall_singleton. exists s.
           rewrite lookup_insert_ne by done. rewrite lookup_insert_eq. auto.
  - destruct (HI _ _ _ Hr) as [Hnd Hall].
    apply records_hold_insert; [done| |].
    + intros (? & ? & _). congruence.
    + intros ?? [= <- <-]. split; [by eapply sublist_NoDup|].
      apply Forall_forall. intros q Hq%(sublist_subseteq _ _ Hsub).
      rewrite Forall_forall in Hall. specialize (Hall _ Hq).
      apply phone_with_insert_ne; [|done].
      intros ->. destruct Hall as (? & ? & _). congruence.
Qed.

Lemma effects_records_hold acc P (σ σ' : store) :
  (∀ s, acc s = true → P s) →
  rtc (effect acc) σ σ' → records_hold P σ → records_hold P σ'.
Proof. intros Hacc. induction 1; eauto using effect_records_hold. Qed.

Lemma effect_book acc (σ σ' : store) b d :
  effect acc σ σ' → σ !! b = Some (OBook d) → σ' !! b = Some (OBook d).
Proof.
  intros Heff Hb. pose proof (alloc_fresh σ) as Hfresh.
  destruct Heff; rewrite ?lookup_insert_ne; congruence.
Qed.

Lemma effects_book acc (σ σ' : store) b d :
  rtc (effect acc) σ σ' → σ !! b = Some (OBook d) → σ' !! b = Some (OBook d).
Proof. induction 1; eauto using effect_book. Qed.

(** ** AddressBook *)

Lemma book_data_Some (σ : store) b d :
  book_data σ b = Some d ↔ σ !! b = Some (OBook d).
Proof.
  unfold book_data. destruct (σ !! b) as [[]|]; split; intros; by simplify_eq.
Qed.

Lemma record_name_Some (σ : store) r key :
  record_name σ r = Some key ↔
  ∃ n ps c, σ !! r = Some (ORecord n ps) ∧ σ !! n = Some (OField c key).
Proof.
  unfold record_name. split.
  - destruct (σ !! r) as [[| n ps |]|]; try done.
    destruct (σ !! n) as [[c s| |]|] eqn:En; try done.
    intros [= <-]. eauto.
  - intros (n & ps & c & -> & ->). done.
Qed.

Lemma find_run (σ : store) b d name :
  σ !! b = Some (OBook d) → find b name σ = (Ret (d !! name), σ).
Proof.
  intros Hb. unfold find. by rewrite (run_bind_ret _ _ _ _ _ (get_data_book _ _ _ Hb)).
Qed.

Lemma add_record_run (σ : store) b r d key :
  σ !! b = Some (OBook d) → record_name σ r = Some key →
  add_record b r σ = (Ret (), <[b := OBook (<[key := r]> d)]> σ).
Proof.
  intros Hb (n & ps & c & Hr & Hn)%record_name_Some. unfold add_record.
  rewrite (run_bind_ret _ _ _ _ _ (get_data_book _ _ _ Hb)).
  rewrite (run_bind_ret _ _ _ _ _ (get_name_record _ _ _ _ Hr)).
  by rewrite (run_bind_ret _ _ _ _ _ (get_value_field _ _ _ _ Hn)).
Qed.

Lemma delete_run (σ : store) b d name :
  σ !! b = Some (OBook d) →
  delete b name σ
  = (Ret (), if bool_decide (is_Some (d !! name))
             then <[b := OBook (base.delete name d)]> σ else σ).
Proof.
  intros Hb. unfold delete.
  rewrite (run_bind_ret _ _ _ _ _ (get_data_book _ _ _ Hb)).
  by case_bool_decide.
Qed.

Lemma record_name_insert_book (σ : store) b d d' r :
  σ !! b = Some (OBook d) →
  record_name (<[b := OBook d']> σ) r = record_name σ r.
Proof.
  intros Hb. unfold record_name.
  destruct (decide (r = b)) as [->|Hr].
  { by rewrite lookup_insert_eq, Hb. }
  rewrite lookup_insert_ne by done.
  destruct (σ !! r) as [[| n ps |]|]; try done.
  destruct (decide (n = b)) as [->|Hn].
  - by rewrite lookup_insert_eq, Hb.
  - by rewrite lookup_insert_ne.
Qed.

(** C8: [delete] raises nothing; afterwards the dictionary of the book is
    the former one without [name], so that [find] answers [None]; when
    [name] was not a key the store is not changed. *)
Theorem delete_then_find (b : ref) (name : str) (σ : store) (d : gmap str ref) :
  book_data σ b = Some d →
  ∃ σ', delete b name σ = (Ret (), σ')
        ∧ book_data σ' b = Some (base.delete name d)
        ∧ find b name σ' = (Ret None, σ')
        ∧ (d !! name = None → σ' = σ).
Proof.
  intros Hb%book_data_Some. rewrite (delete_run _ _ _ _ Hb).
  eexists. split; [done|].
  case_bool_decide as Hin.
  - split_and!.
    + apply book_data_Some, lookup_insert_eq.
    + rewrite (find_run _ _ (base.delete name d)) by apply lookup_insert_eq.
      by rewrite lookup_delete_eq.
    + intros Hnone. rewrite Hnone in Hin. by destruct Hin.
  - apply eq_None_not_Some in Hin. split_and!; [|  |done].
    + apply book_data_Some. by rewrite delete_id.
    + by rewrite (find_run _ _ _ _ Hb), Hin.
Qed.

Lemma delete_then_find_witness :
  let σ : store :=
    {[ 0 := OBook {[ lit "Maria" := 2 ]};
       1 := OField Name (lit "Maria"); 2 := ORecord 1 [] ]} in
  ∃ σ', delete 0 (lit "Maria") σ = (Ret (), σ')
        ∧ book_data σ' 0 = Some (base.delete (lit "Maria") {[ lit "Maria" := 2 ]})
        ∧ find 0 (lit "Maria") σ' = (Ret None, σ')
        ∧ (({[ lit "Maria" := 2 ]} : gmap str ref) !! lit "Maria" = None → σ' = σ).
Proof.
  intros σ. apply (delete_then_find 0 (lit "Maria") σ). reflexivity.
Defined.

(** C10: [add_record] and [delete] rewrite the dictionary of the book at
    one key only, the record's name (respectively [name]): every other key
    keeps its entry, and no instance other than the book itself changes,
    so the records under the other keys are as they were. *)
Theorem book_calls_touch_one_key (b : ref) (σ : store) (d : gmap str ref) :
  book_data σ b = Some d →
  (∀ r key, record_name σ r = Some key →
     ∃ σ' d', add_record b r σ = (Ret (), σ')
              ∧ book_data σ' b = Some d'
              ∧ (∀ k, k ≠ key → d' !! k = d !! k)
              ∧ (∀ l, l ≠ b → σ' !! l = σ !! l))
  ∧ (∀ name,
     ∃ σ' d', delete b name σ = (Ret (), σ')
              ∧ book_data σ' b = Some d'
              ∧ (∀ k, k ≠ name → d' !! k = d !! k)
              ∧ (∀ l, l ≠ b → σ' !! l = σ !! l)).
Proof.
  intros Hb%book_data_Some. split.
  - intros r key Hkey. rewrite (add_record_run _ _ _ _ _ Hb Hkey).
    eexists _, _. split; [done|]. split_and!.
    + apply book_data_Some, lookup_insert_eq.
    + intros k Hk. by rewrite lookup_insert_ne.
    + intros l Hl. by rewrite lookup_insert_ne.
  - intros name. rewrite (delete_run _ _ _ _ Hb).
    case_bool_decide.
    + eexists _, _. split; [done|]. split_and!.
      * apply book_data_Some, lookup_insert_eq.
      * intros k Hk. by rewrite lookup_delete_ne.
      * intros l Hl. by rewrite lookup_insert_ne.
    + exists σ, d. split_and!; try done. by apply book_data_Some.
Qed.

Lemma book_calls_touch_one_key_witness :
  let d : gmap str ref := {[ lit "Maria" := 2; lit "Andriy" := 4 ]} in
  let σ : store :=
    {[ 0 := OBook d;
       1 := OField Name (lit "Maria"); 2 := ORecord 1 [];
       3 := OField Name (lit "Andriy"); 4 := ORecord 3 [];
       5 := OField Name (lit "Maria"); 6 := ORecord 5 [] ]} in
  ∃ σ' d', add_record 0 6 σ = (Ret (), σ')
           ∧ book_data σ' 0 = Some d'
           ∧ (∀ k, k ≠ lit "Maria" → d' !! k = d !! k)
           ∧ (∀ l, l ≠ 0 → σ' !! l = σ !! l).
Proof.
  intros d σ.
  destruct (book_calls_touch_one_key 0 σ d) as [Hadd _]; [reflexivity|].
  apply (Hadd 6 (lit "Maria")). reflexivity.
Defined.

Lemma run_ops_cons v o ops (σ : store) :
  run_ops v (o :: ops) σ = run_ops v ops (run_op v o σ).2.
Proof. done. Qed.

(** Calls on fields and records leave every address book as it is. *)
Lemma run_ops_book v ops (σ : store) b d :
  Forall (λ o, book_op o = false) ops →
  σ !! b = Some (OBook d) → run_ops v ops σ !! b = Some (OBook d).
Proof.
  intros Hops. revert σ.
  induction Hops as [|o ops Ho _ IH]; intros σ Hb; [done|].
  rewrite run_ops_cons. apply IH.
  eapply effects_book; [by apply run_op_effects | done].
Qed.

(** C5: after [add_record] the book maps the record's name to the record
    object itself, so [find] hands back that very object: whatever calls
    are later made on fields and records (adding, editing or removing its
    phones included), [find] still returns the same reference and the
    caller reads the phones as they are then.  Adding another record of
    the same name makes [find] return that one instead. *)
Theorem add_record_then_find
    (b r : ref) (σ : store) (d : gmap str ref) (key : str) :
  book_data σ b = Some d → record_name σ r = Some key →
  ∃ σ1, add_record b r σ = (Ret (), σ1)
        ∧ find b key σ1 = (Ret (Some r), σ1)
        ∧ (∀ v ops, Forall (λ o, book_op o = false) ops →
             find b key (run_ops v ops σ1) = (Ret (Some r), run_ops v ops σ1))
        ∧ (∀ r2, record_name σ1 r2 = Some key →
             ∃ σ2, add_record b r2 σ1 = (Ret (), σ2)
                   ∧ find b key σ2 = (Ret (Some r2), σ2)).
Proof.
  intros Hb%book_data_Some Hkey. rewrite (add_record_run _ _ _ _ _ Hb Hkey).
  eexists. split; [done|].
  set (σ1 := <[b := OBook (<[key := r]> d)]> σ).
  assert (σ1 !! b = Some (OBook (<[key := r]> d))) as Hb1 by apply lookup_insert_eq.
  split_and!.
  - by rewrite (find_run _ _ _ _ Hb1), lookup_insert_eq.
  - intros v ops Hops.
    rewrite (find_run _ _ _ _ (run_ops_book v ops σ1 b _ Hops Hb1)).
    by rewrite lookup_insert_eq.
  - intros r2 Hkey2. rewrite (add_record_run _ _ _ _ _ Hb1 Hkey2).
    eexists. split; [done|].
    rewrite (find_run _ _ (<[key := r2]> (<[key := r]> d))) by apply lookup_insert_eq.
    by rewrite lookup_insert_eq.
Qed.

Lemma add_record_then_find_witness :
  let σ : store :=
    {[ 0 := OBook ∅; 1 := OField Name (lit "Andriy"); 2 := ORecord 1 [] ]} in
  ∃ σ1, add_record 0 2 σ = (Ret (), σ1)
        ∧ find 0 (lit "Andriy") σ1 = (Ret (Some 2), σ1)
        ∧ (∀ v ops, Forall (λ o, book_op o = false) ops →
             find 0 (lit "Andriy") (run_ops v ops σ1)
             = (Ret (Some 2), run_ops v ops σ1))
        ∧ (∀ r2, record_name σ1 r2 = Some (lit "Andriy") →
             ∃ σ2, add_record 0 r2 σ1 = (Ret (), σ2)
                   ∧ find 0 (lit "Andriy") σ2 = (Ret (Some r2), σ2)).
Proof.
  intros σ. apply (add_record_then_find 0 2 σ ∅ (lit "Andriy")); reflexivity.
Defined.

(** The record found in the book shows a phone added after [add_record]. *)
Example find_sees_later_phone :
  let σ : store :=
    {[ 0 := OBook ∅; 1 := OField Name (lit "Andriy"); 2 := ORecord 1 [] ]} in
  let σ' := run_ops Privo [AddRecord 0 2; AddPhone 2 (lit "0981234567")] σ in
  find 0 (lit "Andriy") σ' = (Ret (Some 2), σ')
  ∧ phone_values σ' 2 = Some [lit "0981234567"].
Proof. split; by vm_compute. Qed.

(** ** The phones of every record pass the test *)

Lemma get_data_cases (σ : store) b :
  (∃ d, σ !! b = Some (OBook d) ∧ get_data b σ = (Ret d, σ))
  ∨ (∃ e, get_data b σ = (Raise e, σ)).
Proof.
  unfold get_data, load. rewrite run_bind.
  destruct (σ !! b) as [[]|]; eauto.
Qed.

Lemma get_name_cases (σ : store) r :
  (∃ n, get_name r σ = (Ret n, σ)) ∨ (∃ e, get_name r σ = (Raise e, σ)).
Proof.
  unfold get_name, load. rewrite run_bind.
  destruct (σ !! r) as [[]|]; eauto.
Qed.

Lemma book_op_store v o (σ : store) :
  book_op o = true →
  (run_op v o σ).2 = σ
  ∨ ∃ b d d', σ !! b = Some (OBook d) ∧ (run_op v o σ).2 = <[b := OBook d']> σ.
Proof.
  destruct o; try done; intros _; simpl.
  - unfold add_record.
    destruct (get_data_cases σ b) as [(d & Hb & Hd)|[e Hd]];
      [|left; by rewrite (run_bind_raise _ _ _ _ _ Hd)].
    rewrite (run_bind_ret _ _ _ _ _ Hd).
    destruct (get_name_cases σ r) as [[n Hn]|[e Hn]];
      [|left; by rewrite (run_bind_raise _ _ _ _ _ Hn)].
    rewrite (run_bind_ret _ _ _ _ _ Hn).
    destruct (get_value_cases σ n) as [(c & s & _ & Hv)|[e Hv]];
      [|left; by rewrite (run_bind_raise _ _ _ _ _ Hv)].
    rewrite (run_bind_ret _ _ _ _ _ Hv). right. simpl. eauto.
  - destruct (get_data_cases σ b) as [(d & Hb & Hd)|[e Hd]].
    + rewrite (delete_run _ _ _ _ Hb). simpl. case_bool_decide; [right|left]; eauto.
    + left. unfold delete. by rewrite (run_bind_raise _ _ _ _ _ Hd).
Qed.

Lemma run_op_records_hold P v o (σ : store) :
  (∀ s, op_acc v o s = true → P s) →
  records_hold P σ → records_hold P (run_op v o σ).2.
Proof.
  intros Hacc HI. destruct (book_op o) eqn:Hbook.
  - destruct (book_op_store v o σ Hbook) as [->|(b & d & d' & Hb & ->)]; [done|].
    apply records_hold_insert; [done| |done].
    intros (? & ? & _). congruence.
  - eapply effects_records_hold; [exact Hacc | by apply run_op_effects | done].
Qed.

(** In either variant, whatever is called, each record keeps a list of
    distinct [Phone] instances. *)
Lemma run_ops_shape v ops (σ : store) :
  records_hold (λ _, True) σ → records_hold (λ _, True) (run_ops v ops σ).
Proof.
  revert σ. induction ops as [|o ops IH]; intros σ HI; [done|].
  rewrite run_ops_cons. apply IH. by apply run_op_records_hold.
Qed.

Lemma set_value_writes v l new (σ : store) :
  rtc (effect (written_by v (SetValue l new))) σ (set_value v l new σ).2.
Proof.
  destruct (set_value_cases v σ l new) as [(c & old & Hl & Hacc & ->)|[e ->]];
    [|done].
  eapply rtc_once, eff_value; [done|]. intros Hc.
  unfold written_by. cbn [assigned]. apply andb_true_iff.
  split; [by apply bool_decide_eq_true | auto].
Qed.

Lemma edit_phone_loop_writes v (σ : store) r ps old new :
  ∃ out σ', edit_phone_loop v ps old new σ = (out, σ')
            ∧ rtc (effect (written_by v (EditPhone r old new))) σ σ'.
Proof.
  induction ps as [|p ps IH]; simpl.
  { do 2 eexists. split; [done|apply rtc_refl]. }
  destruct (get_value_cases σ p) as [(c & s & Hp & Hv)|[e Hv]].
  - rewrite (run_bind_ret _ _ _ _ _ Hv). case_bool_decide; [|done].
    rewrite run_bind. pose proof (set_value_writes v p new σ) as Hw.
    destruct (set_value v p new σ) as [[[]|e] σ'];
      do 2 eexists; (split; [done|exact Hw]).
  - rewrite (run_bind_raise _ _ _ _ _ Hv).
    do 2 eexists. split; [done|apply rtc_refl].
Qed.

Lemma edit_phone_writes v r old new (σ : store) :
  rtc (effect (written_by v (EditPhone r old new))) σ (edit_phone v r old new σ).2.
Proof.
  unfold edit_phone.
  destruct (get_phones_cases σ r) as [(n & ps & Hr & Hg)|[e Hg]];
    [|by rewrite (run_bind_raise _ _ _ _ _ Hg)].
  rewrite (run_bind_ret _ _ _ _ _ Hg), run_bind.
  destruct (edit_phone_loop_writes v σ r ps old new) as (out & σ' & -> & Hσ').
  by destruct out as [[]|].
Qed.

(** Every call that is not made on an address book writes into phones
    only values that [written_by] lets through. *)
Lemma run_op_writes v o (σ : store) :
  book_op o = false → rtc (effect (written_by v o)) σ (run_op v o σ).2.
Proof.
  intros Hbook. destruct (assigned o) as [new|] eqn:Hassigned.
  - destruct o; try done; simpl.
    + apply edit_phone_writes.
    + apply set_value_writes.
  - pose proof (run_op_effects v o σ Hbook) as Heffs.
    unfold written_by. rewrite Hassigned.
    unfold op_acc in Heffs. by destruct o.
Qed.

Lemma written_by_accepted v o s :
  (v = Telia → assigns_accepted o = true) →
  written_by v o s = true → accepted s = true.
Proof.
  unfold written_by, assigns_accepted.
  destruct (assigned o) as [new|]; [|done].
  intros Hnew [->%bool_decide_eq_true Hs]%andb_true_iff.
  destruct v; [done | by apply Hnew].
Qed.

Lemma run_op_conform v o (σ : store) :
  (v = Telia → assigns_accepted o = true) →
  phones_conform σ → phones_conform (run_op v o σ).2.
Proof.
  intros Hok HI. destruct (book_op o) eqn:Hbook.
  - destruct (book_op_store v o σ Hbook) as [->|(b & d & d' & Hb & ->)]; [done|].
    apply records_hold_insert; [done| |done].
    intros (? & ? & _). congruence.
  - eapply effects_records_hold; [|by apply run_op_writes|done].
    intros s. by apply written_by_accepted.
Qed.

(** C1 (amended): the phones held by the records are distinct [Phone]
    instances whose values all pass the test of the code (ten characters,
    [isdigit]) after any sequence of calls of privo.py, and after any
    sequence of calls of telia.py in which every value assigned, by
    [edit_phone] or by an assignment to a value, itself passes that
    test. *)
Theorem phones_stay_accepted (v : variant) (ops : list op) (σ : store) :
  phones_conform σ →
  (v = Telia → Forall (λ o, assigns_accepted o = true) ops) →
  phones_conform (run_ops v ops σ).
Proof.
  revert σ. induction ops as [|o ops IH]; intros σ HI Hops; [done|].
  rewrite run_ops_cons. apply IH.
  - apply run_op_conform; [|done].
    intros Hv. specialize (Hops Hv). by inv Hops.
  - intros Hv. specialize (Hops Hv). by inv Hops.
Qed.

Lemma phones_conform_empty : phones_conform ∅.
Proof. intros r n ps Hr. by rewrite lookup_empty in Hr. Qed.

(** The run of telia.py's demonstration on Michael's record, with a
    refused [add_phone] in between. *)
Lemma phones_stay_accepted_witness :
  let σ := run_ops Telia
             [NewRecord (lit "Michael"); AddPhone 1 (lit "3805551234");
              AddPhone 1 (lit "3805559876"); AddPhone 1 (lit "12345");
              EditPhone 1 (lit "3805551234") (lit "3805552222")] ∅ in
  phones_conform σ
  ∧ phone_values σ 1 = Some [lit "3805552222"; lit "3805559876"].
Proof.
  intros σ. split; [|by vm_compute].
  apply phones_stay_accepted.
  - apply phones_conform_empty.
  - intros _. repeat constructor.
Defined.

(** C1 as stated fails.  privo.py: a record comes to hold a phone that is
    not made of ten characters '0'..'9'.  telia.py: [edit_phone] puts a
    value that fails even the test of the code into a held phone. *)
Lemma held_phone_not_ten_ascii_digits :
  (phone_values
     (run_ops Privo [NewRecord (lit "Andriy"); AddPhone 1 superscripts] ∅) 1
   = Some [superscripts]
   ∧ ten_ascii_digits superscripts = false)
  ∧ (phone_values
       (run_ops Telia
          [NewRecord (lit "Michael"); AddPhone 1 (lit "3805551234");
           EditPhone 1 (lit "3805551234") (lit "abc")] ∅) 1
     = Some [lit "abc"]
     ∧ accepted (lit "abc") = false).
Proof. split_and!; by vm_compute. Qed.

(** ** edit_phone with a value that fails the test *)

(** privo.py: the setter of [Phone] refuses the value before anything is
    stored, so the call raises and the store is as before. *)
Lemma privo_edit_phone_rejects (r : ref) (old new : str) (σ : store)
    (ps : list ref) (vs : list str) :
  record_phones σ r = Some ps → hold σ ps vs → old ∈ vs →
  accepted new = false →
  edit_phone Privo r old new σ = (Raise (ValueError validation_msg), σ).
Proof.
  intros Hr Hps Hin Hnew.
  assert (∃ n, σ !! r = Some (ORecord n ps)) as [n Hr'].
  { unfold record_phones in Hr.
    destruct (σ !! r) as [[]|]; simplify_eq. eauto. }
  unfold edit_phone.
  rewrite (run_bind_ret _ _ _ _ _ (get_phones_record _ _ _ _ Hr')).
  by rewrite (run_bind_raise _ _ _ _ _
                (edit_phone_loop_rejected σ ps vs old new Hps Hin Hnew)).
Qed.

(** C2: [edit_phone] with a new value that fails the test should raise
    the validation error and leave the phone at its old value.  telia.py
    does neither: on Michael's record of its demonstration, [edit_phone]
    with the new value "abc" returns normally and the first phone then
    reads "abc". *)
Theorem telia_edit_phone_stores_invalid :
  let σ := run_ops Telia
             [NewRecord (lit "Michael"); AddPhone 1 (lit "3805551234");
              AddPhone 1 (lit "3805559876")] ∅ in
  phone_values σ 1 = Some [lit "3805551234"; lit "3805559876"]
  ∧ accepted (lit "abc") = false
  ∧ ∃ σ', edit_phone Telia 1 (lit "3805551234") (lit "abc") σ = (Ret (), σ')
          ∧ phone_values σ' 1 = Some [lit "abc"; lit "3805559876"].
Proof.
  intros σ. split_and!; [by vm_compute..|].
  eexists. split; by vm_compute.
Qed.

(** ** Record.__str__ *)

(** C9: [__str__] returns "Contact name: " followed by the name, then
    ", phones: " and the phone values in order joined by "; "; with no
    phones nothing follows ", phones: ". *)
Theorem Record_str_format (r : ref) (σ : store) (name : str) (vs : list str) :
  record_name σ r = Some name → phone_values σ r = Some vs →
  Record_str r σ
  = (Ret (lit "Contact name: " ++ name ++ lit ", phones: " ++ join (lit "; ") vs), σ)
  ∧ (vs = [] →
     Record_str r σ = (Ret (lit "Contact name: " ++ name ++ lit ", phones: "), σ)).
Proof.
  intros (n & ps & c & Hr & Hn)%record_name_Some
         (n' & ps' & Hr' & Hps)%phone_values_Some.
  assert (ps' = ps) as -> by congruence.
  assert (Record_str r σ
          = (Ret (lit "Contact name: " ++ name ++ lit ", phones: "
                  ++ join (lit "; ") vs), σ)) as Hrun.
  { unfold Record_str.
    rewrite (run_bind_ret _ _ _ _ _ (get_name_record _ _ _ _ Hr)).
    rewrite (run_bind_ret _ _ _ _ _ (get_value_field _ _ _ _ Hn)).
    rewrite (run_bind_ret _ _ _ _ _ (get_phones_record _ _ _ _ Hr)).
    by rewrite (run_bind_ret _ _ _ _ _ (values_of_run _ _ _ Hps)). }
  split; [done|]. intros ->. rewrite Hrun. cbn [join]. by rewrite app_nil_r.
Qed.

Lemma Record_str_format_witness :
  let σ : store :=
    {[ 0 := OField Name (lit "Andriy"); 1 := ORecord 0 [2; 3];
       2 := OField Phone (lit "0631112233"); 3 := OField Phone (lit "0509876543") ]} in
  Record_str 1 σ
  = (Ret (lit "Contact name: Andriy, phones: 0631112233; 0509876543"), σ).
Proof.
  intros σ.
  apply (Record_str_format 1 σ (lit "Andriy") [lit "0631112233"; lit "0509876543"]);
    reflexivity.
Defined.

Example join_three (a b c : str) :
  join (lit "; ") [a; b; c] = a ++ lit "; " ++ b ++ lit "; " ++ c.
Proof. done. Qed.

(** The demonstration of privo.py up to the edit, in both variants. *)
Example demo_prints :
  (demo Privo ∅).1
  = Ret (2, lit "Contact name: Andriy, phones: 0631112233; 0509876543")
  ∧ (demo Telia ∅).1
    = Ret (2, lit "Contact name: Andriy, phones: 0631112233; 0509876543").
Proof. split; by vm_compute. Qed.

(** * Further properties of the code *)

(** ** find_phone *)

Lemma find_phone_loop_run (σ : store) ps vs raw :
  hold σ ps vs →
  ∃ o, find_phone_loop ps raw σ = (Ret o, σ)
       ∧ (raw ∉ vs → o = None)
       ∧ (raw ∈ vs → ∃ p, o = Some p ∧ p ∈ ps ∧ phone_value σ p = Some raw)
       ∧ (∀ i, vs !! i = Some raw → (∀ j, j < i → vs !! j ≠ Some raw) →
               o = ps !! i).
Proof.
  induction 1 as [|p s ps vs Hp Hps IH]; simpl.
  { exists None. split_and!; [done..| |].
    - by intros ?%elem_of_nil.
    - intros i Hi. by rewrite lookup_nil in Hi. }
  rewrite (run_bind_ret _ _ _ _ _
             (get_value_field _ _ _ _ (proj1 (phone_value_Some _ _ _) Hp))).
  case_bool_decide as Hs.
  - subst s. exists (Some p). split_and!; [done| | |].
    + intros Hout. exfalso. apply Hout, elem_of_cons. by left.
    + intros _. exists p. split_and!; [done| |done]. apply elem_of_cons. by left.
    + intros [|i] Hi Hfirst; [done|]. exfalso.
      by apply (Hfirst 0); [lia|].
  - destruct IH as (o & Hrun & Hnone & Hsome & Hfirst). exists o.
    split_and!; [done| | |].
    + intros [_ ?]%not_elem_of_cons. auto.
    + intros [?|Hin]%elem_of_cons; [done|].
      destruct (Hsome Hin) as (q & -> & Hq & Hv). exists q.
      split_and!; [done| |done]. apply elem_of_cons. by right.
    + intros [|i] Hi Hbefore; simpl in *; [congruence|].
      apply Hfirst; [done|]. intros j Hj. apply (Hbefore (S j)). lia.
Qed.

Lemma record_phones_Some (σ : store) r ps :
  record_phones σ r = Some ps ↔ ∃ n, σ !! r = Some (ORecord n ps).
Proof.
  unfold record_phones. split.
  - destruct (σ !! r) as [[]|]; intros; simplify_eq. eauto.
  - by intros [n ->].
Qed.

Lemma find_phone_run (σ : store) r ps vs raw :
  record_phones σ r = Some ps → hold σ ps vs →
  ∃ o, find_phone r raw σ = (Ret o, σ)
       ∧ (raw ∉ vs → o = None)
       ∧ (raw ∈ vs → ∃ p, o = Some p ∧ p ∈ ps ∧ phone_value σ p = Some raw)
       ∧ (∀ i, vs !! i = Some raw → (∀ j, j < i → vs !! j ≠ Some raw) →
               o = ps !! i).
Proof.
  intros [n Hr]%record_phones_Some Hps. unfold find_phone.
  rewrite (run_bind_ret _ _ _ _ _ (get_phones_record _ _ _ _ Hr)).
  by apply find_phone_loop_run.
Qed.

(** X1: on a record whose entries are [Phone] instances, [find_phone]
    never raises and never changes the store; it answers [None] exactly
    when no entry has the value, and otherwise the instance at the first
    position where the value occurs. *)
Theorem find_phone_first_match
    (r : ref) (raw : str) (σ : store) (ps : list ref) (vs : list str) :
  record_phones σ r = Some ps → hold σ ps vs →
  ∃ o, find_phone r raw σ = (Ret o, σ)
       ∧ (o = None ↔ raw ∉ vs)
       ∧ (∀ i, vs !! i = Some raw → (∀ j, j < i → vs !! j ≠ Some raw) →
               o = ps !! i).
Proof.
  intros Hr Hps.
  destruct (find_phone_run σ r ps vs raw Hr Hps) as (o & Hrun & Hnone & Hsome & Hfirst).
  exists o. split_and!; [done| |done].
  split; [|done]. intros -> Hin. by destruct (Hsome Hin) as (? & ? & _).
Qed.

Lemma find_phone_first_match_witness :
  let σ : store :=
    {[ 0 := OField Name (lit "Andriy"); 1 := ORecord 0 [2; 3; 4];
       2 := OField Phone (lit "0509876543"); 3 := OField Phone (lit "0981234567");
       4 := OField Phone (lit "0981234567") ]} in
  ∃ o, find_phone 1 (lit "0981234567") σ = (Ret o, σ)
       ∧ (o = None ↔
          lit "0981234567" ∉ [lit "0509876543"; lit "0981234567"; lit "0981234567"])
       ∧ (∀ i, [lit "0509876543"; lit "0981234567"; lit "0981234567"] !! i
               = Some (lit "0981234567") →
               (∀ j, j < i →
                     [lit "0509876543"; lit "0981234567"; lit "0981234567"] !! j
                     ≠ Some (lit "0981234567")) →
               o = [2; 3; 4] !! i).
Proof.
  intros σ.
  apply (find_phone_first_match 1 (lit "0981234567") σ [2; 3; 4]
           [lit "0509876543"; lit "0981234567"; lit "0981234567"]);
    [reflexivity | repeat constructor].
Defined.

Lemma edit_loop_is_find_loop v ps old new (σ : store) :
  (returned ← edit_phone_loop v ps old new;
   if returned : bool then mret ()
   else raise (ValueError (not_found_msg v old))) σ
  = (found ← find_phone_loop ps old;
     match found with
     | Some p => set_value v p new
     | None => raise (ValueError (not_found_msg v old))
     end) σ.
Proof.
  induction ps as [|p ps IH]; [done|].
  simpl.
  destruct (get_value_cases σ p) as [(c & s & _ & Hv)|[e Hv]];
    rewrite !run_bind, Hv; [|done].
  case_bool_decide.
  - rewrite run_bind. simpl.
    by destruct (set_value v p new σ) as [[[]|] ?].
  - rewrite <- !run_bind. apply IH.
Qed.

(** X2: in both variants and on every store, [edit_phone] does what a
    caller gets from [find_phone] followed by an assignment to the value
    of the phone found, or the "not found" [ValueError] when there is
    none: same result, same store. *)
Theorem edit_phone_is_find_then_assign
    (v : variant) (r : ref) (old new : str) (σ : store) :
  edit_phone v r old new σ
  = (found ← find_phone r old;
     match found with
     | Some p => set_value v p new
     | None => raise (ValueError (not_found_msg v old))
     end) σ.
Proof.
  unfold edit_phone, find_phone.
  destruct (get_phones_cases σ r) as [(n & ps & _ & Hg)|[e Hg]];
    rewrite !run_bind, Hg; [|done].
  apply edit_loop_is_find_loop.
Qed.

(** ** How add_phone, remove_phone and find_phone compose *)

Lemma add_phone_run v (σ : store) r n ps raw :
  σ !! r = Some (ORecord n ps) → accepted raw = true →
  add_phone v r raw σ
  = (Ret (), <[r := ORecord n (ps ++ [fresh (dom σ)])]>
               (<[fresh (dom σ) := OField Phone raw]> σ)).
Proof.
  intros Hr Hraw. unfold add_phone.
  rewrite (run_bind_ret _ _ _ _ _ (get_phones_record _ _ _ _ Hr)).
  rewrite run_bind, Phone_init_run, Hraw.
  assert (fresh (dom σ) ≠ r) as Hne by (pose proof (alloc_fresh σ); congruence).
  assert ((<[fresh (dom σ) := OField Phone raw]> σ) !! r = Some (ORecord n ps))
    as Hr1 by (by rewrite lookup_insert_ne).
  rewrite (run_bind_ret _ _ _ _ _ (get_phones_record _ _ _ _ Hr1)).
  by rewrite (set_phones_record _ _ _ _ _ Hr1).
Qed.

Lemma add_phone_rejected_run v (σ : store) r n ps raw :
  σ !! r = Some (ORecord n ps) → accepted raw = false →
  add_phone v r raw σ
  = (Raise (ValueError validation_msg),
     match v with
     | Privo => <[fresh (dom σ) := OField Phone []]> σ
     | Telia => σ
     end).
Proof.
  intros Hr Hraw. unfold add_phone.
  rewrite (run_bind_ret _ _ _ _ _ (get_phones_record _ _ _ _ Hr)).
  by rewrite run_bind, Phone_init_run, Hraw.
Qed.

Lemma add_phone_holds (σ : store) r n ps vs raw :
  σ !! r = Some (ORecord n ps) → hold σ ps vs →
  hold (<[r := ORecord n (ps ++ [fresh (dom σ)])]>
          (<[fresh (dom σ) := OField Phone raw]> σ))
       (ps ++ [fresh (dom σ)]) (vs ++ [raw]).
Proof.
  intros Hr Hps. pose proof (alloc_fresh σ) as Hfresh.
  assert (fresh (dom σ) ∉ ps) as Hnotin.
  { eapply hold_not_elem; [done|]. unfold phone_value. by rewrite Hfresh. }
  apply hold_insert.
  - apply hold_snoc; [by apply hold_insert|].
    apply phone_value_Some, lookup_insert_eq.
  - intros [Hin | ->%list_elem_of_singleton]%elem_of_app; [|congruence].
    eapply hold_not_elem in Hin; [done..|]. by eapply record_not_phone.
Qed.

Lemma remove_phone_run (σ : store) r n ps vs raw :
  σ !! r = Some (ORecord n ps) → hold σ ps vs →
  remove_phone r raw σ
  = (Ret (), <[r := ORecord n (filter (λ p, phone_value σ p ≠ Some raw) ps)]> σ).
Proof.
  intros Hr Hps. unfold remove_phone.
  rewrite (run_bind_ret _ _ _ _ _ (get_phones_record _ _ _ _ Hr)).
  rewrite (run_bind_ret _ _ _ _ _ (phones_except_run _ _ _ raw Hps)).
  by apply set_phones_record with ps.
Qed.

Lemma remove_phone_holds (σ : store) r n ps vs raw :
  σ !! r = Some (ORecord n ps) → hold σ ps vs →
  hold (<[r := ORecord n (filter (λ p, phone_value σ p ≠ Some raw) ps)]> σ)
       (filter (λ p, phone_value σ p ≠ Some raw) ps)
       (filter (λ s, s ≠ raw) vs).
Proof.
  intros Hr Hps. apply hold_insert; [by apply hold_filter|].
  eapply hold_not_elem; [by apply hold_filter|]. by eapply record_not_phone.
Qed.

Lemma filter_ne_absent (raw : str) (vs : list str) :
  raw ∉ vs → filter (λ s, s ≠ raw) vs = vs.
Proof.
  induction vs as [|s vs IH]; [done|]. intros [? ?]%not_elem_of_cons.
  rewrite filter_cons_True by congruence. f_equal. auto.
Qed.

(** X3: a phone that [add_phone] has taken is found by [find_phone]: the
    search returns a [Phone] instance of the record whose value is the
    string just added. *)
Theorem add_phone_then_find_phone
    (v : variant) (r : ref) (raw : str) (σ : store) (vs : list str) :
  phone_values σ r = Some vs → accepted raw = true →
  ∃ σ' p, add_phone v r raw σ = (Ret (), σ')
          ∧ find_phone r raw σ' = (Ret (Some p), σ')
          ∧ phone_value σ' p = Some raw
          ∧ (raw ∉ vs → σ !! p = None).
Proof.
  intros (n & ps & Hr & Hps)%phone_values_Some Hraw.
  rewrite (add_phone_run v _ _ _ _ _ Hr Hraw).
  pose proof (add_phone_holds σ r n ps vs raw Hr Hps) as Hhold.
  set (σ' := <[r := _]> _) in *.
  destruct (find_phone_run σ' r (ps ++ [fresh (dom σ)]) (vs ++ [raw]) raw)
    as (o & Hfind & _ & Hsome & Hfirst); [|done|].
  { apply record_phones_Some. exists n. apply lookup_insert_eq. }
  destruct Hsome as (p & -> & Hp & Hv).
  { apply elem_of_app. right. by apply list_elem_of_singleton. }
  exists σ', p. split_and!; [done..|].
  intros Hout. pose proof (Forall2_length _ _ _ Hps) as Hlen.
  assert (Some p = (ps ++ [fresh (dom σ)]) !! length vs) as Hp'.
  { apply Hfirst.
    - rewrite lookup_app_r by lia. by rewrite Nat.sub_diag.
    - intros j Hj Hvj. rewrite lookup_app_l in Hvj by done.
      apply Hout. by eapply list_elem_of_lookup_2. }
  rewrite lookup_app_r, <- Hlen, Nat.sub_diag in Hp' by lia.
  injection Hp' as ->. apply alloc_fresh.
Qed.

Lemma add_phone_then_find_phone_witness :
  let σ : store :=
    {[ 0 := OField Name (lit "Andriy"); 1 := ORecord 0 [2];
       2 := OField Phone (lit "0981234567") ]} in
  ∃ σ' p, add_phone Telia 1 (lit "0509876543") σ = (Ret (), σ')
          ∧ find_phone 1 (lit "0509876543") σ' = (Ret (Some p), σ')
          ∧ phone_value σ' p = Some (lit "0509876543")
          ∧ (lit "0509876543" ∉ [lit "0981234567"] → σ !! p = None).
Proof.
  intros σ.
  apply (add_phone_then_find_phone Telia 1 (lit "0509876543") σ [lit "0981234567"]);
    reflexivity.
Defined.

(** X4: after [remove_phone] the value is gone: [find_phone] for it
    answers [None]. *)
Theorem remove_phone_then_find_phone
    (r : ref) (raw : str) (σ : store) (vs : list str) :
  phone_values σ r = Some vs →
  ∃ σ', remove_phone r raw σ = (Ret (), σ')
        ∧ find_phone r raw σ' = (Ret None, σ').
Proof.
  intros (n & ps & Hr & Hps)%phone_values_Some.
  rewrite (remove_phone_run _ _ _ _ _ raw Hr Hps).
  pose proof (remove_phone_holds σ r n ps vs raw Hr Hps) as Hhold.
  set (σ' := <[r := _]> _) in *. exists σ'. split; [done|].
  destruct (find_phone_run σ' r _ _ raw (proj2 (record_phones_Some _ _ _)
              (ex_intro _ n (lookup_insert_eq _ _ _))) Hhold)
    as (o & Hfind & Hnone & _).
  rewrite Hfind, Hnone; [done|].
  intros [? _]%list_elem_of_filter. done.
Qed.

Lemma remove_phone_then_find_phone_witness :
  let σ : store :=
    {[ 0 := OField Name (lit "Maria"); 1 := ORecord 0 [2; 3; 4];
       2 := OField Phone (lit "0675554433"); 3 := OField Phone (lit "0509876543");
       4 := OField Phone (lit "0675554433") ]} in
  ∃ σ', remove_phone 1 (lit "0675554433") σ = (Ret (), σ')
        ∧ find_phone 1 (lit "0675554433") σ' = (Ret None, σ').
Proof.
  intros σ.
  apply (remove_phone_then_find_phone 1 (lit "0675554433") σ
           [lit "0675554433"; lit "0509876543"; lit "0675554433"]).
  reflexivity.
Defined.

(** X5: [add_phone] of a value the record did not hold, then
    [remove_phone] of that value, gives back the record's list of phone
    instances and their values exactly as they were; in general the
    values left are the former ones without the value. *)
Theorem add_then_remove_phone
    (v : variant) (r : ref) (raw : str) (σ : store) (vs : list str) :
  phone_values σ r = Some vs → accepted raw = true →
  ∃ σ1 σ2, add_phone v r raw σ = (Ret (), σ1)
           ∧ remove_phone r raw σ1 = (Ret (), σ2)
           ∧ phone_values σ2 r = Some (filter (λ s, s ≠ raw) vs)
           ∧ (raw ∉ vs →
              phone_values σ2 r = Some vs
              ∧ record_phones σ2 r = record_phones σ r).
Proof.
  intros (n & ps & Hr & Hps)%phone_values_Some Hraw.
  pose proof (add_phone_run v _ _ _ _ _ Hr Hraw) as Hadd.
  pose proof (add_phone_holds σ r n ps vs raw Hr Hps) as Hhold.
  set (σ1 := <[r := _]> _) in *.
  assert (σ1 !! r = Some (ORecord n (ps ++ [fresh (dom σ)]))) as Hr1
    by apply lookup_insert_eq.
  pose proof (remove_phone_run _ _ _ _ _ raw Hr1 Hhold) as Hrem.
  pose proof (remove_phone_holds σ1 r n _ _ raw Hr1 Hhold) as Hhold2.
  set (σ2 := <[r := _]> σ1) in *. exists σ1, σ2.
  assert (filter (λ s, s ≠ raw) (vs ++ [raw]) = filter (λ s, s ≠ raw) vs) as Hvs.
  { rewrite filter_app, filter_cons, decide_False by (by intros ?).
    by rewrite filter_nil, app_nil_r. }
  rewrite Hvs in Hhold2.
  assert (phone_values σ2 r = Some (filter (λ s, s ≠ raw) vs)) as Hvals.
  { apply phone_values_Some. eexists _, _. split; [apply lookup_insert_eq|done]. }
  split_and!; [done..|].
  intros Hout. rewrite <- (filter_ne_absent raw vs Hout) at 1. split; [done|].
  unfold record_phones. unfold σ2. rewrite lookup_insert_eq, Hr. f_equal.
  rewrite filter_app.
  assert (hold σ1 ps vs) as Hps1.
  { apply Forall2_app_inv_l in Hhold as (vs1 & vs2 & H1 & H2 & Heq).
    apply Forall2_length in H2 as Hlen. destruct vs2 as [|? [|]]; try done.
    apply app_inj_tail in Heq as [-> _]. done. }
  rewrite (filter_absent _ _ _ _ Hps1 Hout), filter_cons, decide_False.
  - by rewrite filter_nil, app_nil_r.
  - intros Hne. apply Hne. apply phone_value_Some. unfold σ1.
    assert (fresh (dom σ) ≠ r) by (pose proof (alloc_fresh σ); congruence).
    rewrite lookup_insert_ne by done. apply lookup_insert_eq.
Qed.

Lemma add_then_remove_phone_witness :
  let σ : store :=
    {[ 0 := OField Name (lit "Andriy"); 1 := ORecord 0 [2];
       2 := OField Phone (lit "0981234567") ]} in
  ∃ σ1 σ2, add_phone Privo 1 (lit "0509876543") σ = (Ret (), σ1)
           ∧ remove_phone 1 (lit "0509876543") σ1 = (Ret (), σ2)
           ∧ phone_values σ2 1 = Some [lit "0981234567"]
           ∧ (lit "0509876543" ∉ [lit "0981234567"] →
              phone_values σ2 1 = Some [lit "0981234567"]
              ∧ record_phones σ2 1 = record_phones σ 1).
Proof.
  intros σ.
  apply (add_then_remove_phone Privo 1 (lit "0509876543") σ [lit "0981234567"]);
    reflexivity.
Defined.

(** ** The test on plain ASCII, and what the field classes store *)

(** X6: on a string of ASCII characters the test of the code is exactly
    "ten characters, each '0'..'9'": it is only beyond ASCII that
    [isdigit] takes more.  In particular the empty string, and digits
    mixed with '+', '-' or blanks, are refused. *)
Theorem accepted_on_ascii (s : str) :
  Forall (λ c, (c < 128)%N) s → accepted s = ten_ascii_digits s.
Proof.
  intros Hs. unfold accepted, ten_ascii_digits, isdigit.
  assert (forallb char_isdigit s = forallb char_is_ascii_digit s) as ->.
  { induction Hs as [|c s Hc _ IH]; simpl; [done|].
    by rewrite IH, char_isdigit_ascii. }
  destruct s as [|c s]; [done|]. simpl.
  apply andb_comm.
Qed.

Lemma accepted_on_ascii_witness :
  accepted (lit "+380551234") = ten_ascii_digits (lit "+380551234").
Proof.
  apply accepted_on_ascii.
  apply (bool_decide_unpack _). vm_compute. exact I.
Defined.

(** X7: a string of ten characters '0'..'9' makes a [Phone] in either
    variant, at a reference not in use before, and [str()] of that phone
    gives the string back. *)
Theorem Phone_of_ten_digits_prints (v : variant) (s : str) (σ : store) :
  ten_ascii_digits s = true →
  ∃ p σ', Phone_init v s σ = (Ret p, σ')
          ∧ σ !! p = None
          ∧ Field_str p σ' = (Ret s, σ').
Proof.
  intros Hs%ten_ascii_digits_accepted.
  rewrite Phone_init_run, Hs. eexists _, _. split; [done|].
  split; [apply alloc_fresh|].
  unfold Field_str. eapply get_value_field, lookup_insert_eq.
Qed.

Lemma Phone_of_ten_digits_prints_witness :
  ∃ p σ', Phone_init Privo (lit "0981234567") ∅ = (Ret p, σ')
          ∧ (∅ : store) !! p = None
          ∧ Field_str p σ' = (Ret (lit "0981234567"), σ').
Proof. apply (Phone_of_ten_digits_prints Privo (lit "0981234567") ∅). reflexivity. Defined.

Lemma Field_init_plain_run v c value (σ : store) :
  c ≠ Phone →
  Field_init v c value σ
  = (Ret (fresh (dom σ)), <[fresh (dom σ) := OField c value]> σ).
Proof.
  intros Hc. destruct v; [|done]. unfold Field_init. rewrite run_bind. simpl.
  rewrite run_bind.
  rewrite (set_value_ok Privo _ _ c [] value) by (done || apply lookup_insert_eq).
  by rewrite insert_insert_eq.
Qed.

(** X8: a [Field] or a [Name] takes any string whatever, the empty one
    included, in both variants: construction returns a new instance
    holding it, and assignment to the value of an existing instance
    stores it; neither ever raises. *)
Theorem plain_field_takes_anything (v : variant) (c : cls) (value : str) (σ : store) :
  c ≠ Phone →
  (∃ p, σ !! p = None
        ∧ Field_init v c value σ = (Ret p, <[p := OField c value]> σ)
        ∧ Field_str p (<[p := OField c value]> σ)
          = (Ret value, <[p := OField c value]> σ))
  ∧ (∀ l old, σ !! l = Some (OField c old) →
       set_value v l value σ = (Ret (), <[l := OField c value]> σ)).
Proof.
  intros Hc. split.
  - exists (fresh (dom σ)). split_and!.
    + apply alloc_fresh.
    + by apply Field_init_plain_run.
    + unfold Field_str. eapply get_value_field, lookup_insert_eq.
  - intros l old Hl. by apply (set_value_ok v σ l c old).
Qed.

Lemma plain_field_takes_anything_witness :
  let σ : store := {[ 0 := OField Name (lit "Maria") ]} in
  (∃ p, σ !! p = None
        ∧ Field_init Privo Name [] σ = (Ret p, <[p := OField Name []]> σ)
        ∧ Field_str p (<[p := OField Name []]> σ)
          = (Ret [], <[p := OField Name []]> σ))
  ∧ set_value Privo 0 [] σ = (Ret (), <[0 := OField Name []]> σ).
Proof.
  intros σ. destruct (plain_field_takes_anything Privo Name [] σ) as [H1 H2]; [done|].
  split; [exact H1|]. apply (H2 0 (lit "Maria")). reflexivity.
Defined.

(** ** Record construction *)

Lemma Record_str_run (σ : store) r n c name ps vs :
  σ !! r = Some (ORecord n ps) → σ !! n = Some (OField c name) → hold σ ps vs →
  Record_str r σ
  = (Ret (lit "Contact name: " ++ name ++ lit ", phones: " ++ join (lit "; ") vs), σ).
Proof.
  intros Hr Hn Hps. unfold Record_str.
  rewrite (run_bind_ret _ _ _ _ _ (get_name_record _ _ _ _ Hr)).
  rewrite (run_bind_ret _ _ _ _ _ (get_value_field _ _ _ _ Hn)).
  rewrite (run_bind_ret _ _ _ _ _ (get_phones_record _ _ _ _ Hr)).
  by rewrite (run_bind_ret _ _ _ _ _ (values_of_run _ _ _ Hps)).
Qed.

(** X9: [Record(name)] never fails, for any name; it returns a new record
    of that name with no phones, which prints as "Contact name: <name>,
    phones: "; nothing that existed before is changed. *)
Theorem Record_init_fresh (v : variant) (name : str) (σ : store) :
  ∃ r σ', Record_init v name σ = (Ret r, σ')
          ∧ σ !! r = None
          ∧ record_name σ' r = Some name
          ∧ phone_values σ' r = Some []
          ∧ (∀ l o, σ !! l = Some o → σ' !! l = Some o)
          ∧ Record_str r σ'
            = (Ret (lit "Contact name: " ++ name ++ lit ", phones: "), σ').
Proof.
  unfold Record_init, Name_init.
  rewrite (run_bind_ret _ _ _ _ _ (Field_init_Name_run v name σ)).
  set (n := fresh (dom σ)). set (σ1 := <[n := OField Name name]> σ).
  set (r := fresh (dom σ1)).
  pose proof (alloc_fresh σ) as Hn. pose proof (alloc_fresh σ1) as Hr.
  fold n in Hn. fold r in Hr.
  assert (r ≠ n) as Hne.
  { intros Heq. rewrite Heq in Hr. unfold σ1 in Hr. by rewrite lookup_insert_eq in Hr. }
  assert (σ !! r = None) as Hr0.
  { unfold σ1 in Hr. by rewrite lookup_insert_ne in Hr. }
  exists r, (<[r := ORecord n []]> σ1).
  assert ((<[r := ORecord n []]> σ1) !! r = Some (ORecord n [])) as Hr2
    by apply lookup_insert_eq.
  assert ((<[r := ORecord n []]> σ1) !! n = Some (OField Name name)) as Hn2.
  { rewrite lookup_insert_ne by done. apply lookup_insert_eq. }
  split_and!; [done|done| | | |].
  - apply record_name_Some. eauto.
  - apply phone_values_Some. exists n, []. split; [done|constructor].
  - intros l o Hl. unfold σ1. rewrite !lookup_insert_ne; [done|congruence..].
  - rewrite (Record_str_run _ r n Name name [] [] Hr2 Hn2) by constructor.
    cbn [join]. by rewrite app_nil_r.
Qed.

(** ** How the calls on an address book compose *)

(** X10: [add_record] followed by [delete] of the record's name leaves
    the book without that name, so [find] answers [None], whatever was
    filed under it before; when the name was not a key of the book, the
    two calls together leave the whole store as it was. *)
Theorem add_record_then_delete
    (b r : ref) (σ : store) (d : gmap str ref) (key : str) :
  book_data σ b = Some d → record_name σ r = Some key →
  ∃ σ1 σ2, add_record b r σ = (Ret (), σ1)
           ∧ delete b key σ1 = (Ret (), σ2)
           ∧ book_data σ2 b = Some (base.delete key d)
           ∧ find b key σ2 = (Ret None, σ2)
           ∧ (d !! key = None → σ2 = σ).
Proof.
  intros Hb%book_data_Some Hkey.
  pose proof (add_record_run _ _ _ _ _ Hb Hkey) as Hadd.
  set (σ1 := <[b := OBook (<[key := r]> d)]> σ) in *.
  assert (σ1 !! b = Some (OBook (<[key := r]> d))) as Hb1 by apply lookup_insert_eq.
  pose proof (delete_run _ _ _ key Hb1) as Hdel.
  rewrite bool_decide_eq_true_2 in Hdel by (rewrite lookup_insert_eq; eauto).
  unfold σ1 in Hdel at 2. rewrite insert_insert_eq, delete_insert_eq in Hdel.
  exists σ1, (<[b := OBook (base.delete key d)]> σ). split_and!; [done..| | |].
  - apply book_data_Some, lookup_insert_eq.
  - rewrite (find_run _ _ (base.delete key d)) by apply lookup_insert_eq.
    by rewrite lookup_delete_eq.
  - intros Hnone. rewrite delete_id by done. by apply insert_id.
Qed.

Lemma add_record_then_delete_witness :
  let σ : store :=
    {[ 0 := OBook ∅; 1 := OField Name (lit "Maria"); 2 := ORecord 1 [] ]} in
  ∃ σ1 σ2, add_record 0 2 σ = (Ret (), σ1)
           ∧ delete 0 (lit "Maria") σ1 = (Ret (), σ2)
           ∧ book_data σ2 0 = Some (base.delete (lit "Maria") ∅)
           ∧ find 0 (lit "Maria") σ2 = (Ret None, σ2)
           ∧ ((∅ : gmap str ref) !! lit "Maria" = None → σ2 = σ).
Proof.
  intros σ. apply (add_record_then_delete 0 2 σ ∅ (lit "Maria")); reflexivity.
Defined.

(** X11: the calls on a book are idempotent: adding the same record a
    second time, or deleting the same name a second time, returns
    normally and changes nothing. *)
Theorem book_calls_idempotent (b : ref) (σ : store) (d : gmap str ref) :
  book_data σ b = Some d →
  (∀ r key, record_name σ r = Some key →
     ∃ σ1, add_record b r σ = (Ret (), σ1) ∧ add_record b r σ1 = (Ret (), σ1))
  ∧ (∀ name,
     ∃ σ1, delete b name σ = (Ret (), σ1) ∧ delete b name σ1 = (Ret (), σ1)).
Proof.
  intros Hb%book_data_Some. split.
  - intros r key Hkey. rewrite (add_record_run _ _ _ _ _ Hb Hkey).
    eexists. split; [done|].
    rewrite (add_record_run _ b r (<[key := r]> d) key).
    + by rewrite !insert_insert_eq.
    + apply lookup_insert_eq.
    + by rewrite (record_name_insert_book _ _ d).
  - intros name. rewrite (delete_run _ _ _ _ Hb).
    case_bool_decide as Hin.
    + eexists. split; [done|].
      rewrite (delete_run _ b (base.delete name d)) by apply lookup_insert_eq.
      rewrite bool_decide_eq_false_2; [done|].
      rewrite lookup_delete_eq. by intros [].
    + exists σ. split; [done|]. rewrite (delete_run _ _ _ _ Hb).
      by rewrite bool_decide_eq_false_2.
Qed.

Lemma book_calls_idempotent_witness :
  let σ : store :=
    {[ 0 := OBook {[ lit "Andriy" := 9 ]};
       1 := OField Name (lit "Maria"); 2 := ORecord 1 [] ]} in
  ∃ σ1, add_record 0 2 σ = (Ret (), σ1) ∧ add_record 0 2 σ1 = (Ret (), σ1).
Proof.
  intros σ.
  destruct (book_calls_idempotent 0 σ {[ lit "Andriy" := 9 ]}) as [Hadd _];
    [reflexivity|].
  apply (Hadd 2 (lit "Maria")). reflexivity.
Defined.

(** X12: the key of a book entry is the name the record had when
    [add_record] ran.  If the value of the record's [Name] is assigned
    afterwards (which no variant prevents), the record reads the new
    name, yet the book still returns it under the old name and has
    nothing new under the new one. *)
Theorem book_key_is_a_snapshot
    (v : variant) (b r n : ref) (ps : list ref) (σ : store)
    (d : gmap str ref) (old new : str) :
  book_data σ b = Some d →
  σ !! r = Some (ORecord n ps) → σ !! n = Some (OField Name old) →
  new ≠ old →
  ∃ σ1 σ2, add_record b r σ = (Ret (), σ1)
           ∧ set_value v n new σ1 = (Ret (), σ2)
           ∧ record_name σ2 r = Some new
           ∧ find b old σ2 = (Ret (Some r), σ2)
           ∧ find b new σ2 = (Ret (d !! new), σ2).
Proof.
  intros Hb%book_data_Some Hr Hn Hne.
  assert (record_name σ r = Some old) as Hkey by (apply record_name_Some; eauto).
  pose proof (add_record_run _ _ _ _ _ Hb Hkey) as Hadd.
  set (σ1 := <[b := OBook (<[old := r]> d)]> σ) in *.
  assert (n ≠ b) as Hnb by congruence. assert (r ≠ b) as Hrb by congruence.
  assert (r ≠ n) as Hrn by congruence.
  assert (σ1 !! n = Some (OField Name old)) as Hn1
    by (unfold σ1; by rewrite lookup_insert_ne).
  pose proof (set_value_ok v σ1 n Name old new Hn1) as Hset.
  exists σ1, (<[n := OField Name new]> σ1).
  assert ((<[n := OField Name new]> σ1) !! b = Some (OBook (<[old := r]> d))) as Hb2.
  { rewrite lookup_insert_ne by done. apply lookup_insert_eq. }
  split_and!; [done|by apply Hset| | |].
  - apply record_name_Some. exists n, ps, Name. split.
    + rewrite lookup_insert_ne by done. unfold σ1. by rewrite lookup_insert_ne.
    + apply lookup_insert_eq.
  - by rewrite (find_run _ _ _ _ Hb2), lookup_insert_eq.
  - rewrite (find_run _ _ _ _ Hb2). by rewrite lookup_insert_ne.
Qed.

Lemma book_key_is_a_snapshot_witness :
  let σ : store :=
    {[ 0 := OBook ∅; 1 := OField Name (lit "Maria"); 2 := ORecord 1 [] ]} in
  ∃ σ1 σ2, add_record 0 2 σ = (Ret (), σ1)
           ∧ set_value Privo 1 (lit "Mariya") σ1 = (Ret (), σ2)
           ∧ record_name σ2 2 = Some (lit "Mariya")
           ∧ find 0 (lit "Maria") σ2 = (Ret (Some 2), σ2)
           ∧ find 0 (lit "Mariya") σ2 = (Ret ((∅ : gmap str ref) !! lit "Mariya"), σ2).
Proof.
  intros σ.
  apply (book_key_is_a_snapshot Privo 0 2 1 [] σ ∅ (lit "Maria") (lit "Mariya"));
    [reflexivity..|]. by vm_compute.
Defined.

(** ** Calls on one record and the rest of the store *)

Lemma edit_phone_loop_change v (σ : store) ps vs old new :
  hold σ ps vs →
  ∃ out σ', edit_phone_loop v ps old new σ = (out, σ')
            ∧ (σ' = σ
               ∨ ∃ p, p ∈ ps ∧ σ !! p = Some (OField Phone old)
                      ∧ σ' = <[p := OField Phone new]> σ).
Proof.
  induction 1 as [|p s ps vs Hp _ IH]; simpl; [eauto|].
  pose proof (proj1 (phone_value_Some _ _ _) Hp) as Hp'.
  rewrite (run_bind_ret _ _ _ _ _ (get_value_field _ _ _ _ Hp')).
  case_bool_decide as Hs.
  - subst s.
    destruct (set_value_cases v σ p new) as [(c & o & Hp'' & _ & Hset)|[e Hset]].
    + rewrite (run_bind_ret _ _ _ _ _ Hset). do 2 eexists. split; [done|].
      right. exists p. assert (c = Phone) as -> by congruence.
      split_and!; [apply elem_of_cons; by left | done..].
    + rewrite (run_bind_raise _ _ _ _ _ Hset). eauto.
  - destruct IH as (out & σ' & Hrun & [->|(q & Hq & Hqv & ->)]).
    + eauto.
    + do 2 eexists. split; [done|]. right. exists q.
      split_and!; [apply elem_of_cons; by right | done..].
Qed.

Lemma add_phone_change v (σ : store) r n ps raw :
  σ !! r = Some (ORecord n ps) →
  record_change false σ r n ps (add_phone v r raw σ).2.
Proof.
  intros Hr. destruct (accepted raw) eqn:Hraw.
  - rewrite (add_phone_run v _ _ _ _ _ Hr Hraw). apply rc_append.
  - rewrite (add_phone_rejected_run v _ _ _ _ _ Hr Hraw).
    destruct v; [apply rc_stray | apply rc_none].
Qed.

Lemma remove_phone_change (σ : store) r n ps raw :
  σ !! r = Some (ORecord n ps) →
  record_change false σ r n ps (remove_phone r raw σ).2.
Proof.
  intros Hr. unfold remove_phone.
  rewrite (run_bind_ret _ _ _ _ _ (get_phones_record _ _ _ _ Hr)).
  destruct (phones_except_cases σ ps raw) as [(kept & Hsub & Hrun)|[e Hrun]].
  - rewrite (run_bind_ret _ _ _ _ _ Hrun), (set_phones_record _ _ _ _ _ Hr).
    by apply rc_keep.
  - rewrite (run_bind_raise _ _ _ _ _ Hrun). apply rc_none.
Qed.

Lemma edit_phone_change v (σ : store) r n ps vs old new :
  σ !! r = Some (ORecord n ps) → hold σ ps vs →
  record_change true σ r n ps (edit_phone v r old new σ).2.
Proof.
  intros Hr Hps. unfold edit_phone.
  rewrite (run_bind_ret _ _ _ _ _ (get_phones_record _ _ _ _ Hr)), run_bind.
  destruct (edit_phone_loop_change v σ ps vs old new Hps)
    as (out & σ' & -> & Hσ').
  assert (record_change true σ r n ps σ') as Hrc.
  { destruct Hσ' as [->|(p & Hp & Hpv & ->)]; [apply rc_none|].
    by eapply rc_value. }
  by destruct out as [[]|].
Qed.

Lemma phone_values_unchanged (σ σ' : store) r vs :
  record_phones σ' r = record_phones σ r →
  (∀ ps p, record_phones σ r = Some ps → p ∈ ps → σ' !! p = σ !! p) →
  phone_values σ r = Some vs → phone_values σ' r = Some vs.
Proof.
  unfold phone_values. intros -> Hsame.
  destruct (record_phones σ r) as [ps|]; simpl; [|done].
  specialize (Hsame ps). rewrite !mapM_Some. intros H.
  assert (∀ p, p ∈ ps → σ' !! p = σ !! p) as Hall by auto. clear Hsame.
  induction H as [|p s ps vs Hp _ IH]; constructor.
  - unfold phone_value in *. rewrite Hall; [done|]. apply elem_of_cons. by left.
  - apply IH. intros q Hq. apply Hall, elem_of_cons. by right.
Qed.

Lemma record_change_other assign (σ σ' : store) r n ps r' ps' vs' :
  record_change assign σ r n ps σ' →
  σ !! r = Some (ORecord n ps) → r' ≠ r →
  record_phones σ r' = Some ps' → phone_values σ r' = Some vs' →
  (assign = true → ∀ p, p ∈ ps → p ∉ ps') →
  record_phones σ' r' = Some ps' ∧ phone_values σ' r' = Some vs'.
Proof.
  intros Hrc Hr Hne Hps' Hvs' Hapart.
  pose proof (alloc_fresh σ) as Hfresh.
  assert (fresh (dom σ) ≠ r') as Hfr'.
  { intros Heq. apply record_phones_Some in Hps' as [? ?]. congruence. }
  assert (hold σ ps' vs') as Hhold.
  { apply phone_values_Some in Hvs' as (? & ? & ? & ?).
    apply record_phones_Some in Hps' as [? ?]. by simplify_eq. }
  assert (r ∉ ps') as Hr_notin
    by (eapply hold_not_elem; [done|]; by eapply record_not_phone).
  assert (fresh (dom σ) ∉ ps') as Hf_notin.
  { eapply hold_not_elem; [done|]. unfold phone_value. by rewrite Hfresh. }
  assert (∀ σ'', record_phones σ'' r' = Some ps' →
                 (∀ p, p ∈ ps' → σ'' !! p = σ !! p) →
                 record_phones σ'' r' = Some ps' ∧ phone_values σ'' r' = Some vs')
    as Hdone.
  { intros σ'' E Hsame. split; [done|].
    apply (phone_values_unchanged σ); [congruence| |done].
    intros qs p Hqs Hp. apply Hsame. congruence. }
  destruct Hrc as [|s|s|kept Hsub|p old new Hassign Hp Hpv]; apply Hdone.
  - done.
  - intros; done.
  - unfold record_phones. by rewrite lookup_insert_ne.
  - intros p Hp. rewrite lookup_insert_ne; [done|]. by intros <-.
  - unfold record_phones. by rewrite !lookup_insert_ne.
  - intros p Hp. rewrite !lookup_insert_ne; [done|by intros <-..].
  - unfold record_phones. by rewrite lookup_insert_ne.
  - intros p Hp. rewrite lookup_insert_ne; [done|]. by intros <-.
  - unfold record_phones. rewrite lookup_insert_ne; [done|].
    intros <-. apply record_phones_Some in Hps' as [? ?]. congruence.
  - intros q Hq. rewrite lookup_insert_ne; [done|]. intros <-.
    by apply (Hapart Hassign p Hp).
Qed.

(** X13: a call of [add_phone], [remove_phone] or [edit_phone] on one
    record, whatever its arguments and whether it returns or raises,
    leaves every other record with the same phone instances and the same
    values.  For [edit_phone] this needs that the two records share no
    phone instance. *)
Theorem calls_leave_other_records
    (v : variant) (r r' : ref) (σ : store)
    (ps ps' : list ref) (vs vs' : list str) :
  r' ≠ r →
  record_phones σ r = Some ps → hold σ ps vs →
  record_phones σ r' = Some ps' → phone_values σ r' = Some vs' →
  (∀ raw, record_phones (add_phone v r raw σ).2 r' = Some ps'
          ∧ phone_values (add_phone v r raw σ).2 r' = Some vs')
  ∧ (∀ raw, record_phones (remove_phone r raw σ).2 r' = Some ps'
            ∧ phone_values (remove_phone r raw σ).2 r' = Some vs')
  ∧ ((∀ p, p ∈ ps → p ∉ ps') →
     ∀ old new, record_phones (edit_phone v r old new σ).2 r' = Some ps'
                ∧ phone_values (edit_phone v r old new σ).2 r' = Some vs').
Proof.
  intros Hne [n Hr]%record_phones_Some Hps Hps' Hvs'. split_and!.
  - intros raw.
    by eapply record_change_other; [by apply add_phone_change|done..].
  - intros raw.
    by eapply record_change_other; [by apply remove_phone_change|done..].
  - intros Hapart old new.
    eapply record_change_other; [by eapply edit_phone_change|done..|]. done.
Qed.

Lemma calls_leave_other_records_witness :
  let σ : store :=
    {[ 0 := OField Name (lit "Andriy"); 1 := ORecord 0 [2];
       2 := OField Phone (lit "0981234567");
       3 := OField Name (lit "Maria"); 4 := ORecord 3 [5];
       5 := OField Phone (lit "0981234567") ]} in
  record_phones (edit_phone Telia 1 (lit "0981234567") (lit "0631112233") σ).2 4
  = Some [5]
  ∧ phone_values (edit_phone Telia 1 (lit "0981234567") (lit "0631112233") σ).2 4
    = Some [lit "0981234567"].
Proof.
  intros σ.
  destruct (calls_leave_other_records Telia 1 4 σ [2] [5]
              [lit "0981234567"] [lit "0981234567"]) as (_ & _ & Hedit);
    [done | reflexivity | repeat constructor | reflexivity | reflexivity |].
  apply Hedit. intros p Hp%list_elem_of_singleton Hp'%list_elem_of_singleton.
  congruence.
Defined.

Lemma record_change_name assign (σ σ' : store) r n ps r' n' ps' key :
  record_change assign σ r n ps σ' →
  σ !! r = Some (ORecord n ps) →
  σ !! r' = Some (ORecord n' ps') → σ !! n' = Some (OField Name key) →
  record_name σ' r' = Some key.
Proof.
  intros Hrc Hr Hr' Hn'. pose proof (alloc_fresh σ) as Hfresh.
  assert (fresh (dom σ) ≠ r') as Hf1 by congruence.
  assert (fresh (dom σ) ≠ n') as Hf2 by congruence.
  assert (r ≠ n') as Hrn by congruence.
  apply record_name_Some.
  destruct Hrc as [|s|s|kept Hsub|p old new Hassign Hp Hpv].
  - eauto.
  - exists n', ps', Name. by rewrite !lookup_insert_ne.
  - destruct (decide (r' = r)) as [->|Hne].
    + assert (n' = n) as -> by congruence.
      eexists n, _, Name. rewrite lookup_insert_eq. split; [done|].
      by rewrite !lookup_insert_ne.
    + exists n', ps', Name. by rewrite !lookup_insert_ne.
  - destruct (decide (r' = r)) as [->|Hne].
    + assert (n' = n) as -> by congruence.
      eexists n, _, Name. rewrite lookup_insert_eq. split; [done|].
      by rewrite !lookup_insert_ne.
    + exists n', ps', Name. by rewrite !lookup_insert_ne.
  - assert (p ≠ r') by congruence. assert (p ≠ n') by congruence.
    exists n', ps', Name. by rewrite !lookup_insert_ne.
Qed.

(** X14: no call of [add_phone], [remove_phone] or [edit_phone], on any
    record and with any arguments, changes the name of a record: a record
    whose name is a [Name] instance reads the same name afterwards. *)
Theorem phone_calls_keep_names
    (v : variant) (r r' n' : ref) (σ : store)
    (ps ps' : list ref) (vs : list str) (key : str) :
  record_phones σ r = Some ps → hold σ ps vs →
  σ !! r' = Some (ORecord n' ps') → σ !! n' = Some (OField Name key) →
  (∀ raw, record_name (add_phone v r raw σ).2 r' = Some key)
  ∧ (∀ raw, record_name (remove_phone r raw σ).2 r' = Some key)
  ∧ (∀ old new, record_name (edit_phone v r old new σ).2 r' = Some key).
Proof.
  intros [n Hr]%record_phones_Some Hps Hr' Hn'. split_and!.
  - intros raw. by eapply record_change_name; [by apply add_phone_change|..].
  - intros raw. by eapply record_change_name; [by apply remove_phone_change|..].
  - intros old new.
    by eapply record_change_name; [by eapply edit_phone_change|..].
Qed.

Lemma phone_calls_keep_names_witness :
  let σ : store :=
    {[ 0 := OField Name (lit "Andriy"); 1 := ORecord 0 [2];
       2 := OField Phone (lit "0981234567") ]} in
  record_name (edit_phone Telia 1 (lit "0981234567") (lit "Maria") σ).2 1
  = Some (lit "Andriy").
Proof.
  intros σ.
  destruct (phone_calls_keep_names Telia 1 1 0 σ [2] [2] [lit "0981234567"]
              (lit "Andriy")) as (_ & _ & Hedit);
    [reflexivity | repeat constructor | reflexivity | reflexivity |].
  apply Hedit.
Defined.

(** ** Records own their phones *)

Lemma phones_apart_insert (σ : store) l o :
  phones_apart σ →
  (∀ n qs r' n' ps' p, o = ORecord n qs → r' ≠ l →
     σ !! r' = Some (ORecord n' ps') → p ∈ qs → p ∉ ps') →
  phones_apart (<[l := o]> σ).
Proof.
  intros HA Ho r r' n n' ps ps' p Hne Hr Hr' Hp.
  destruct (decide (r = l)) as [->|Hrl].
  - rewrite lookup_insert_eq in Hr. rewrite lookup_insert_ne in Hr' by done.
    injection Hr as ->. by eapply Ho.
  - rewrite lookup_insert_ne in Hr by done.
    destruct (decide (r' = l)) as [->|Hr'l].
    + rewrite lookup_insert_eq in Hr'. injection Hr' as ->.
      intros Hp'. by eapply (Ho n' ps' r n ps p).
    + rewrite lookup_insert_ne in Hr' by done.
      by apply (HA r r' n n' ps ps' p).
Qed.

Lemma effect_phones_apart acc (σ σ' : store) :
  effect acc σ σ' → records_hold (λ _, True) σ → phones_apart σ →
  phones_apart σ'.
Proof.
  intros Heff HI HA. pose proof (alloc_fresh σ) as Hfresh.
  destruct Heff as [c s|n| |l c old new Hl Hnew|r n ps s Hr Hs|r n ps kept Hr Hsub].
  - by apply phones_apart_insert.
  - apply phones_apart_insert; [done|].
    intros ?????? [= <- <-] _ _ ?%elem_of_nil. done.
  - by apply phones_apart_insert.
  - by apply phones_apart_insert.
  - assert (fresh (dom σ) ≠ r) as Hne by congruence.
    apply phones_apart_insert; [by apply phones_apart_insert|].
    intros ? ? r' n' ps' p [= <- <-] Hr'r Hr' Hp.
    assert (r' ≠ fresh (dom σ)) as Hr'f.
    { intros ->. by rewrite lookup_insert_eq in Hr'. }
    rewrite lookup_insert_ne in Hr' by done.
    apply elem_of_app in Hp as [Hp | ->%list_elem_of_singleton].
    + by apply (HA r r' n n' ps ps' p).
    + intros Hin. destruct (HI _ _ _ Hr') as [_ Hall].
      rewrite Forall_forall in Hall.
      destruct (Hall _ Hin) as (? & ? & _). congruence.
  - apply phones_apart_insert; [done|].
    intros ? ? r' n' ps' p [= <- <-] Hr'r Hr' Hp%(sublist_subseteq _ _ Hsub).
    by apply (HA r r' n n' ps ps' p).
Qed.

Lemma run_op_phones_apart v o (σ : store) :
  records_hold (λ _, True) σ → phones_apart σ → phones_apart (run_op v o σ).2.
Proof.
  intros HI HA. destruct (book_op o) eqn:Hbook.
  - destruct (book_op_store v o σ Hbook) as [->|(b & d & d' & Hb & ->)]; [done|].
    by apply phones_apart_insert.
  - pose proof (run_op_effects v o σ Hbook) as Heffs.
    induction Heffs as [|σ1 σ2 σ3 Heff _ IH]; [done|].
    apply IH.
    + by eapply effect_records_hold.
    + by eapply effect_phones_apart.
Qed.

(** X15: in both variants, whatever sequence of calls is made and
    whichever of them raise, every record keeps a list of distinct
    [Phone] instances and no [Phone] instance is held by two records. *)
Theorem records_own_their_phones (v : variant) (ops : list op) (σ : store) :
  records_hold (λ _, True) σ → phones_apart σ →
  records_hold (λ _, True) (run_ops v ops σ) ∧ phones_apart (run_ops v ops σ).
Proof.
  revert σ. induction ops as [|o ops IH]; intros σ HI HA; [done|].
  rewrite run_ops_cons. apply IH.
  - by apply run_op_records_hold.
  - by apply run_op_phones_apart.
Qed.

Lemma records_own_their_phones_witness :
  let σ := run_ops Telia
             [NewRecord (lit "Michael"); AddPhone 1 (lit "3805551234");
              NewRecord (lit "Sarah"); AddPhone 4 (lit "3805551234");
              EditPhone 1 (lit "3805551234") (lit "abc");
              RemovePhone 4 (lit "0000000000")] ∅ in
  records_hold (λ _, True) σ ∧ phones_apart σ.
Proof.
  apply records_own_their_phones.
  - intros r n ps Hr. by rewrite lookup_empty in Hr.
  - intros r r' n n' ps ps' p _ Hr. by rewrite lookup_empty in Hr.
Defined.

(** ** The two ways edit_phone can fail, and telia.py's none *)

Lemma not_found_msg_ne_validation v old : not_found_msg v old ≠ validation_msg.
Proof.
  intros Heq. apply (f_equal last) in Heq. revert Heq.
  unfold not_found_msg. destruct v; rewrite !app_assoc.
  - change (lit " not found") with (lit " not foun" ++ [100%N]).
    rewrite app_assoc, last_snoc. by vm_compute.
  - change (lit " not found in the record") with (lit " not found in the recor" ++ [100%N]).
    rewrite app_assoc, last_snoc. by vm_compute.
Qed.

(** X16: privo.py, on a record of distinct phones holding [old]: when
    [new] fails the test, [edit_phone] raises the validation [ValueError]
    and the store is exactly as before.  Both failures of [edit_phone]
    are [ValueError]s, and their messages differ whatever [old] is, so the
    message tells "not found" from "not valid". *)
Theorem privo_edit_phone_refuses
    (r : ref) (old new : str) (σ : store) (ps : list ref) (vs : list str) :
  record_phones σ r = Some ps → hold σ ps vs → old ∈ vs →
  accepted new = false →
  edit_phone Privo r old new σ = (Raise (ValueError validation_msg), σ)
  ∧ ∀ v old', ValueError (not_found_msg v old') ≠ ValueError validation_msg.
Proof.
  intros Hr Hps Hin Hnew. split.
  - by eapply privo_edit_phone_rejects.
  - intros v old' [= Heq]. by apply not_found_msg_ne_validation in Heq.
Qed.

Lemma privo_edit_phone_refuses_witness :
  let σ : store :=
    {[ 0 := OField Name (lit "Andriy"); 1 := ORecord 0 [2];
       2 := OField Phone (lit "0981234567") ]} in
  edit_phone Privo 1 (lit "0981234567") (lit "098-123-45") σ
  = (Raise (ValueError validation_msg), σ)
  ∧ ∀ v old', ValueError (not_found_msg v old') ≠ ValueError validation_msg.
Proof.
  intros σ.
  apply (privo_edit_phone_refuses 1 (lit "0981234567") (lit "098-123-45") σ
           [2] [lit "0981234567"]);
    [reflexivity | repeat constructor | | reflexivity].
  apply list_elem_of_singleton. reflexivity.
Defined.

(** X17: telia.py, on a record of distinct phones holding [old]:
    [edit_phone] returns normally for every string [new] whatever, and
    the first entry of value [old] then reads [new]; the call never
    raises a validation error. *)
Theorem telia_edit_phone_takes_anything
    (r : ref) (old new : str) (σ : store) (ps : list ref) (vs : list str) :
  record_phones σ r = Some ps → hold σ ps vs → NoDup ps → old ∈ vs →
  ∃ σ', edit_phone Telia r old new σ = (Ret (), σ')
        ∧ record_phones σ' r = Some ps
        ∧ phone_values σ' r = Some (replace_first old new vs).
Proof.
  intros [n Hr]%record_phones_Some Hps Hnd Hin. unfold edit_phone.
  rewrite (run_bind_ret _ _ _ _ _ (get_phones_record _ _ _ _ Hr)).
  destruct (edit_phone_loop_found Telia σ ps vs old new Hps Hnd Hin eq_refl)
    as (p & Hp & Hpv & Hrun & Hhold).
  rewrite (run_bind_ret _ _ _ _ _ Hrun).
  assert (p ≠ r) as Hne.
  { intros ->. apply phone_value_Some in Hpv. congruence. }
  eexists. split; [done|]. split.
  - apply record_phones_Some. exists n. by rewrite lookup_insert_ne.
  - apply phone_values_Some. exists n, ps.
    split; [by rewrite lookup_insert_ne | done].
Qed.

Lemma telia_edit_phone_takes_anything_witness :
  let σ : store :=
    {[ 0 := OField Name (lit "Michael"); 1 := ORecord 0 [2; 3];
       2 := OField Phone (lit "3805551234"); 3 := OField Phone (lit "3805559876") ]} in
  ∃ σ', edit_phone Telia 1 (lit "3805559876") [] σ = (Ret (), σ')
        ∧ record_phones σ' 1 = Some [2; 3]
        ∧ phone_values σ' 1 = Some [lit "3805551234"; []].
Proof.
  intros σ.
  apply (telia_edit_phone_takes_anything 1 (lit "3805559876") [] σ [2; 3]
           [lit "3805551234"; lit "3805559876"]);
    [reflexivity | repeat constructor | | ].
  - apply (bool_decide_unpack _). vm_compute. exact I.
  - apply (bool_decide_unpack _). vm_compute. exact I.
Defined.

(** ** Undoing an edit, repeating a removal *)

Lemma hold_elem (σ : store) ps vs q :
  hold σ ps vs → q ∈ ps → ∃ s, phone_value σ q = Some s ∧ s ∈ vs.
Proof.
  intros H [i Hi]%list_elem_of_lookup.
  destruct (Forall2_lookup_l _ _ _ i q H Hi) as (s & Hs & Hv).
  exists s. split; [done|]. by eapply list_elem_of_lookup_2.
Qed.

Lemma replace_first_elem (old new : str) (vs : list str) :
  old ∈ vs → new ∈ replace_first old new vs.
Proof.
  induction vs as [|s vs IH]; [by intros ?%elem_of_nil|]. simpl.
  intros Hin. case_bool_decide.
  - apply elem_of_cons. by left.
  - apply elem_of_cons in Hin as [?|?]; [done|].
    apply elem_of_cons. right. auto.
Qed.

Lemma edit_phone_found_run v (σ : store) r ps vs old new :
  record_phones σ r = Some ps → hold σ ps vs → NoDup ps → old ∈ vs →
  setter_accepts v new = true →
  ∃ p, p ∈ ps ∧ phone_value σ p = Some old
       ∧ edit_phone v r old new σ = (Ret (), <[p := OField Phone new]> σ)
       ∧ record_phones (<[p := OField Phone new]> σ) r = Some ps
       ∧ hold (<[p := OField Phone new]> σ) ps (replace_first old new vs).
Proof.
  intros [n Hr]%record_phones_Some Hps Hnd Hin Hnew.
  destruct (edit_phone_loop_found v σ ps vs old new Hps Hnd Hin Hnew)
    as (p & Hp & Hpv & Hrun & Hhold).
  exists p. split_and!; [done..| | |done].
  - unfold edit_phone.
    rewrite (run_bind_ret _ _ _ _ _ (get_phones_record _ _ _ _ Hr)).
    by rewrite (run_bind_ret _ _ _ _ _ Hrun).
  - apply record_phones_Some. exists n. rewrite lookup_insert_ne; [done|].
    intros ->. apply phone_value_Some in Hpv. congruence.
Qed.

(** X18: an edit can be taken back.  On a record of distinct phones that
    holds [old] and does not hold [new], with both values let through by
    the assignment, [edit_phone old new] followed by [edit_phone new old]
    returns normally twice and the store is exactly what it was. *)
Theorem edit_phone_undone
    (v : variant) (r : ref) (old new : str) (σ : store)
    (ps : list ref) (vs : list str) :
  record_phones σ r = Some ps → hold σ ps vs → NoDup ps →
  old ∈ vs → new ∉ vs →
  setter_accepts v new = true → setter_accepts v old = true →
  ∃ σ', edit_phone v r old new σ = (Ret (), σ')
        ∧ phone_values σ' r = Some (replace_first old new vs)
        ∧ edit_phone v r new old σ' = (Ret (), σ).
Proof.
  intros Hr Hps Hnd Hin Hout Hnew Hold.
  destruct (edit_phone_found_run v σ r ps vs old new Hr Hps Hnd Hin Hnew)
    as (p & Hp & Hpv & Hrun & Hr' & Hhold).
  set (σ' := <[p := OField Phone new]> σ) in *. exists σ'.
  split_and!; [done| |].
  { apply record_phones_Some in Hr' as [n Hr'].
    apply phone_values_Some. eauto. }
  destruct (edit_phone_found_run v σ' r ps _ new old Hr' Hhold Hnd
              (replace_first_elem old new vs Hin) Hold)
    as (q & Hq & Hqv & Hrun' & _).
  assert (q = p) as ->.
  { destruct (decide (q = p)) as [|Hne]; [done|]. exfalso.
    unfold σ' in Hqv. rewrite phone_value_insert_ne in Hqv by done.
    destruct (hold_elem σ ps vs q Hps Hq) as (s & Hs & Hsin). congruence. }
  rewrite Hrun'. unfold σ'. rewrite insert_insert_eq.
  f_equal. apply insert_id. by apply phone_value_Some.
Qed.

Lemma edit_phone_undone_witness :
  let σ : store :=
    {[ 0 := OField Name (lit "Andriy"); 1 := ORecord 0 [2; 3];
       2 := OField Phone (lit "0981234567"); 3 := OField Phone (lit "0509876543") ]} in
  ∃ σ', edit_phone Privo 1 (lit "0981234567") (lit "0631112233") σ = (Ret (), σ')
        ∧ phone_values σ' 1 = Some [lit "0631112233"; lit "0509876543"]
        ∧ edit_phone Privo 1 (lit "0631112233") (lit "0981234567") σ' = (Ret (), σ).
Proof.
  intros σ.
  apply (edit_phone_undone Privo 1 (lit "0981234567") (lit "0631112233") σ
           [2; 3] [lit "0981234567"; lit "0509876543"]);
    [reflexivity | repeat constructor | | | | reflexivity | reflexivity].
  - apply (bool_decide_unpack _). vm_compute. exact I.
  - apply (bool_decide_unpack _). vm_compute. exact I.
  - apply (bool_decide_unpack _). vm_compute. exact I.
Defined.

(** X19: [remove_phone] is idempotent: a second removal of the same
    value returns normally and leaves the store as the first one made
    it. *)
Theorem remove_phone_idempotent
    (r : ref) (raw : str) (σ : store) (vs : list str) :
  phone_values σ r = Some vs →
  ∃ σ', remove_phone r raw σ = (Ret (), σ')
        ∧ remove_phone r raw σ' = (Ret (), σ').
Proof.
  intros (n & ps & Hr & Hps)%phone_values_Some.
  pose proof (remove_phone_run _ _ _ _ _ raw Hr Hps) as Hrun.
  pose proof (remove_phone_holds σ r n ps vs raw Hr Hps) as Hhold.
  set (kept := filter (λ p, phone_value σ p ≠ Some raw) ps) in *.
  set (σ' := <[r := ORecord n kept]> σ) in *. exists σ'. split; [done|].
  assert (σ' !! r = Some (ORecord n kept)) as Hr' by apply lookup_insert_eq.
  rewrite (remove_phone_run _ _ _ _ _ raw Hr' Hhold).
  rewrite (filter_absent _ _ _ _ Hhold).
  - f_equal. by apply insert_id.
  - intros [? _]%list_elem_of_filter. done.
Qed.

Lemma remove_phone_idempotent_witness :
  let σ : store :=
    {[ 0 := OField Name (lit "Maria"); 1 := ORecord 0 [2; 3];
       2 := OField Phone (lit "0675554433"); 3 := OField Phone (lit "0509876543") ]} in
  ∃ σ', remove_phone 1 (lit "0675554433") σ = (Ret (), σ')
        ∧ remove_phone 1 (lit "0675554433") σ' = (Ret (), σ').
Proof.
  intros σ.
  apply (remove_phone_idempotent 1 (lit "0675554433") σ
           [lit "0675554433"; lit "0509876543"]).
  reflexivity.
Defined.
